(** * imitation.scripts.eval_policy: a shallow embedding

    The script rolls a policy out in a vectorized environment and reports
    statistics.  It is orchestration: almost every statement is a call into
    another module.  The embedding therefore keeps three things explicit:

    - the _call tree_ of a run (which function was called, in which order,
      with which outcome), as a list of [Event]s returned next to the result;
    - Python's control flow for exceptions, [with] statements and
      [contextlib.ExitStack];
    - the objects the script builds: the wrapper chain around the vectorized
      environment.

    Floats are idealised as rationals ([Q]); [time.sleep] is an event that
    carries the requested duration. *)

From Stdlib Require Import ZArith QArith Reals Qreals Lia Lra String.
From stdpp Require Import base list.

Set Default Proof Using "Type".
Local Open Scope string_scope.
Local Open Scope list_scope.

(** ** Exceptions, outcomes and the call tree *)

Inductive Exn : Type :=
| ValueError
| ZeroDivisionError
| UnboundLocalError
| OSError
| OtherError (cls : string).

(** The three ways a computation can end.  [Div] stands for a computation
    that never returns (a rollout whose episodes never finish); it is not an
    exception: no [except], [with] or [finally] ever sees it. *)
Inductive Res (A : Type) : Type :=
| Val (a : A)
| Exc (e : Exn)
| Div.
Arguments Val {A} a.
Arguments Exc {A} e.
Arguments Div {A}.

Inductive Outcome : Type :=
| Returned
| Raised (e : Exn)
| Diverged.

Definition outcome_of {A} (r : Res A) : Outcome :=
  match r with
  | Val _ => Returned
  | Exc e => Raised e
  | Div => Diverged
  end.

(** The two scoped resources of [eval_policy]. *)
Inductive Resource : Type := RPolicy | RReward.

Definition Resource_eqb (a b : Resource) : bool :=
  match a, b with
  | RPolicy, RPolicy | RReward, RReward => true
  | _, _ => false
  end.

(** The callees that appear in the call tree. *)
Inductive Call : Type :=
| CMakedirs (path : string)
| CSymlink (log_dir : string)
| CSetVerbosity
| CLogInfo (msg : string)
| CMakeSampleUntil
| CMakeVecEnv
| CLoadReward
| CRewardVecEnvWrapper
| CLoadPolicy
| CEnter (r : Resource)
| CExit (r : Resource) (exc : option Exn)
| CGenerateTrajectories
| CRolloutStats
| CReset
| CStepAsync
| CStepWait
| CRender
| CSleep (secs : Q)
| CPredict.

(** One node of the call tree: the callee, the calls it made itself, and how
    it ended. *)
#[warnings="-register-all"]
Inductive Event : Type :=
| EvCall (c : Call) (inner : list Event) (o : Outcome).

(** ** The monad: state, exceptions, and the events of the run *)

Definition St (S A : Type) : Type := S -> list Event * Res A * S.

Definition ret {S A} (a : A) : St S A := fun s => ([], Val a, s).

Definition raise {S A} (e : Exn) : St S A := fun s => ([], Exc e, s).

Definition diverge {S A} : St S A := fun s => ([], Div, s).

Definition bind {S A B} (m : St S A) (k : A -> St S B) : St S B :=
  fun s =>
    match m s with
    | (ev, Val a, s1) =>
        let '(ev', r, s2) := k a s1 in (ev ++ ev', r, s2)
    | (ev, Exc e, s1) => (ev, Exc e, s1)
    | (ev, Div, s1) => (ev, Div, s1)
    end.

Declare Scope py_scope.
Delimit Scope py_scope with py.
Notation "x <- m ;; k" := (bind m (fun x => k))
  (at level 62, m at next level, right associativity) : py_scope.
Notation "m ;;; k" := (bind m (fun _ => k))
  (at level 62, right associativity) : py_scope.
Local Open Scope py_scope.

(** [try: m except BaseException as e: ...] made first class: the exception,
    if any, becomes a value. *)
Definition try_ {S A} (m : St S A) : St S (A + Exn) :=
  fun s =>
    match m s with
    | (ev, Val a, s1) => (ev, Val (inl a), s1)
    | (ev, Exc e, s1) => (ev, Val (inr e), s1)
    | (ev, Div, s1) => (ev, Div, s1)
    end.

(** A call to [c] whose body is [m]: one node of the call tree. *)
Definition sub {S A} (c : Call) (m : St S A) : St S A :=
  fun s => let '(ev, r, s1) := m s in ([EvCall c ev (outcome_of r)], r, s1).

(** A value computed by a callee that has no effect on the state. *)
Definition pure_res {S A} (r : Res A) : St S A := fun s => ([], r, s).

(** ** Python's arithmetic and [time.sleep] *)

(** [a / b] on ints: true division, [ZeroDivisionError] when [b] is 0.
    The quotient is the exact rational; Python rounds it to a float (to
    0.0 when it is below the smallest one), which keeps its sign and the
    bounds 0 and 1 but not its being different from 0. *)
Definition truediv (a b : Z) : Res Q :=
  if (b =? 0)%Z then Exc ZeroDivisionError
  else Val (Qmake (a * Z.sgn b) (Z.to_pos (Z.abs b))).

(** [time.sleep(secs)]: [ValueError] on a negative duration. *)
Definition time_sleep {S} (secs : Q) : St S unit :=
  if Qle_bool 0 secs then sub (CSleep secs) (ret tt) else raise ValueError.

Section Harness.

Context {Obs Act Info X : Type}.

(** ** The world

    [X] is the state of everything outside the script: the simulators, the
    file system, the TensorFlow session.  The heap holds the fields of the
    reward wrapper objects: the observations and actions of the step in
    progress. *)

Record Cell : Type := mkCell {
  old_obs : option (list Obs);
  actions : option (list Act);
}.

Record World : Type := mkWorld {
  ext : X;
  heap : list Cell;
}.

Definition M (A : Type) : Type := St World A.

(** Code outside the script: it sees and changes [X] only. *)
Definition Ext (A : Type) : Type := X -> Res A * X.

Definition lift_ext {A} (f : Ext A) : M A :=
  fun w => let '(r, x) := f (ext w) in ([], r, mkWorld x (heap w)).

Definition call {A} (c : Call) (f : Ext A) : M A := sub c (lift_ext f).

(** ** Vectorized environments

    One entry per environment instance, in the result of a step and in the
    observations of a reset.  An instance that ends an episode is reset at
    once: the observation of its step result is then the first of the next
    episode, and the observation the episode ended in is reported beside it
    (stable-baselines puts it into the info dictionary, under
    ["terminal_observation"]). *)

Record InstStep : Type := mkInstStep {
  i_obs : Obs;
  i_rew : Q;
  i_done : bool;
  i_info : Info;
  i_terminal : option Obs;
}.

Definition StepResult : Type := list InstStep.

(** A [VecEnv] object: its methods close over the world. *)
Record VecEnv : Type := mkVecEnv {
  m_reset : M (list Obs);
  m_step_async : list Act -> M unit;
  m_step_wait : M StepResult;
  m_render : M unit;
}.

(** Method calls, as nodes of the call tree. *)
Definition reset (venv : VecEnv) : M (list Obs) := sub CReset (m_reset venv).
Definition step_async (venv : VecEnv) (acts : list Act) : M unit :=
  sub CStepAsync (m_step_async venv acts).
Definition step_wait (venv : VecEnv) : M StepResult :=
  sub CStepWait (m_step_wait venv).
Definition render (venv : VecEnv) : M unit := sub CRender (m_render venv).

(** [VecEnv.step] of stable_baselines: [step_async] then [step_wait]. *)
Definition step (venv : VecEnv) (acts : list Act) : M StepResult :=
  step_async venv acts ;;; step_wait venv.

(** The environment built by the factory: its methods run outside. *)
Record BaseEnv : Type := mkBaseEnv {
  b_reset : Ext (list Obs);
  b_step_async : list Act -> Ext unit;
  b_step_wait : Ext StepResult;
  b_render : Ext unit;
}.

Definition of_base (b : BaseEnv) : VecEnv :=
  {| m_reset := lift_ext (b_reset b);
     m_step_async := fun acts => lift_ext (b_step_async b acts);
     m_step_wait := lift_ext (b_step_wait b);
     m_render := lift_ext (b_render b) |}.

(** *** [class InteractiveRender(VecEnvWrapper)]

    [step_async] and [render] are inherited from [VecEnvWrapper], which
    forwards them to [self.venv]. *)
Definition InteractiveRender (venv : VecEnv) (fps : Z) : VecEnv :=
  {| m_reset :=
       ob <- reset venv ;;
       render venv ;;;
       ret ob;
     m_step_async := fun acts => step_async venv acts;
     m_step_wait :=
       ob <- step_wait venv ;;
       (if (0 <? fps)%Z
        then secs <- pure_res (truediv 1 fps) ;; time_sleep secs
        else ret tt) ;;;
       render venv ;;;
       ret ob;
     m_render := render venv |}.

(** ** Data model of a rollout

    A trajectory is the ordered sequence of the steps of one episode. *)

Record Step : Type := mkStep {
  s_obs : Obs;
  s_act : Act;
  s_rew : Q;
  s_done : bool;
}.

Definition Traj : Type := list Step.

(** A stopping condition: a predicate over the elapsed timesteps and the
    elapsed episodes. *)
Definition SampleUntil : Type := nat -> nat -> bool.

(** A reward function maps (state, action, next state) to a reward. *)
Definition RewardFn : Type := Obs -> Act -> Obs -> Q.

(** A policy maps the observations of all instances to their actions; it may
    be stochastic or stateful, which lives outside. *)
Definition Policy : Type := list Obs -> Ext (list Act).

(** Aggregated statistics.  A standard deviation is kept through its square,
    the (sample) variance, which is rational when the data are. *)
Record Stats : Type := mkStats {
  n_traj : nat;
  return_mean : Q;
  return_var : Q;
  len_mean : Q;
  len_var : Q;
}.

(** ** Context managers, [with] and [contextlib.ExitStack] *)

(** [__enter__] and [__exit__]; the argument of [__exit__] is the exception
    in flight, its result says whether to suppress it. *)
Record ContextManager (A : Type) : Type := mkCM {
  cm_enter : Ext A;
  cm_exit : option Exn -> Ext bool;
}.
Arguments cm_enter {A} _.
Arguments cm_exit {A} _ _.

(** The part of the activation frame of [eval_policy] that outlives an
    exception inside the [with] statements: the callbacks registered on the
    [ExitStack] (last registered first) and the local variable [trajs],
    unbound until it is assigned. *)
Record Frame : Type := mkFrame {
  exit_callbacks : list (option Exn -> M bool);
  trajs_var : option (list Traj);
}.

(** Statements of the function body run on the frame and the world. *)
Definition ES (A : Type) : Type := St (Frame * World) A.

Definition lift {A} (m : M A) : ES A :=
  fun '(fr, w) => let '(ev, r, w1) := m w in (ev, r, (fr, w1)).

(** [trajs = v] *)
Definition assign_trajs (v : list Traj) : ES unit :=
  fun '(fr, w) => ([], Val tt, (mkFrame (exit_callbacks fr) (Some v), w)).

(** Reading [trajs]: [UnboundLocalError] while it is unbound. *)
Definition read_trajs : ES (list Traj) :=
  fun '(fr, w) =>
    match trajs_var fr with
    | Some v => ([], Val v, (fr, w))
    | None => ([], Exc UnboundLocalError, (fr, w))
    end.

(** A function body, run on a fresh frame. *)
Definition in_frame {A} (body : ES A) : M A :=
  fun w => let '(ev, r, (_, w1)) := body (mkFrame [] None, w) in (ev, r, w1).

(** [with cm as v: body].  [__exit__] is called with the exception the body
    raised, if any; the exception is re-raised unless [__exit__] returns
    true.  What the body assigned before it raised stays assigned. *)
Definition with_ {A} (r : Resource) (cm : ContextManager A)
    (body : A -> ES unit) : ES unit :=
  v <- lift (call (CEnter r) (cm_enter cm)) ;;
  o <- try_ (body v) ;;
  match o with
  | inl _ =>
      lift (call (CExit r None) (cm_exit cm None)) ;;;
      ret tt
  | inr e =>
      suppress <- lift (call (CExit r (Some e)) (cm_exit cm (Some e))) ;;
      if suppress : bool then ret tt else raise e
  end.

Definition push_exit (cb : option Exn -> M bool) : ES unit :=
  fun '(fr, w) => ([], Val tt, (mkFrame (cb :: exit_callbacks fr) (trajs_var fr), w)).

(** [stack.enter_context(cm)]: enter, then register [cm.__exit__]. *)
Definition enter_context {A} (r : Resource) (cm : ContextManager A) : ES A :=
  v <- lift (call (CEnter r) (cm_enter cm)) ;;
  push_exit (fun exc => call (CExit r exc) (cm_exit cm exc)) ;;;
  ret v.

(** The loop of [ExitStack.__exit__]: callbacks run in LIFO order; one that
    returns true clears the exception in flight, one that raises replaces
    it. *)
Fixpoint run_exit_callbacks (cbs : list (option Exn -> M bool))
    (exc : option Exn) (suppressed_exc pending_raise : bool) : M bool :=
  match cbs with
  | [] =>
      match pending_raise, exc with
      | true, Some e => raise e
      | _, _ => ret suppressed_exc
      end
  | cb :: rest =>
      r <- try_ (cb exc) ;;
      match r with
      | inl true => run_exit_callbacks rest None true false
      | inl false => run_exit_callbacks rest exc suppressed_exc pending_raise
      | inr e => run_exit_callbacks rest (Some e) suppressed_exc true
      end
  end.

Definition ExitStack_exit (exc : option Exn) : ES bool :=
  fun '(fr, w) =>
    let '(ev, r, w1) :=
      (s <- run_exit_callbacks (exit_callbacks fr) exc false false ;;
       ret (bool_decide (is_Some exc) && s)) w in
    (ev, r, (mkFrame [] (trajs_var fr), w1)).

(** [with contextlib.ExitStack() as stack: body]: a new, empty stack; the
    body; then [stack.__exit__], under the rules of [with]. *)
Definition with_ExitStack (body : ES unit) : ES unit :=
  (fun '(fr, w) => ([], Val tt, (mkFrame [] (trajs_var fr), w))) ;;;
  o <- try_ body ;;
  match o with
  | inl _ => ExitStack_exit None ;;; ret tt
  | inr e =>
      suppress <- ExitStack_exit (Some e) ;;
      if suppress : bool then ret tt else raise e
  end.

(** ** The script *)

(** What [eval_policy] imports from modules that are not part of this file. *)
Record Imports : Type := mkImports {
  os_makedirs : string -> Ext unit;
  build_sacred_symlink : string -> Ext unit;
  tf_logging_set_verbosity : Ext unit;
  tf_logging_info : string -> Ext unit;
  rollout_make_sample_until : option Z -> option Z -> Res SampleUntil;
  util_make_vec_env :
    string -> Z -> Z -> bool -> string -> option Z -> Ext BaseEnv;
  load_reward : string -> option string -> VecEnv -> Ext (ContextManager RewardFn);
  reward_wrapper_RewardVecEnvWrapper : VecEnv -> RewardFn -> M VecEnv;
  serialize_load_policy : string -> string -> VecEnv -> Ext (ContextManager Policy);
  rollout_generate_trajectories : Policy -> VecEnv -> SampleUntil -> M (list Traj);
  rollout_rollout_stats : list Traj -> Res Stats;
}.

(** The configuration: the parameters of [eval_policy] that Sacred fills in
    ([_run] is only handed on to [build_sacred_symlink]). *)
Record Config : Type := mkConfig {
  _seed : Z;
  env_name : string;
  eval_n_timesteps : option Z;
  eval_n_episodes : option Z;
  num_vec : Z;
  parallel : bool;
  render_flag : bool;
  render_fps : Z;
  log_dir : string;
  policy_type : string;
  policy_path : string;
  reward_type : option string;
  reward_path : option string;
  max_episode_steps : option Z;
}.

(** [str(x)] for an optional string. *)
Definition str_opt (o : option string) : string :=
  match o with Some s => s | None => "None" end.

(** Lines 99-100: the optional render wrapper. *)
Definition wrap_render (c : Config) (venv : VecEnv) : VecEnv :=
  if render_flag c then InteractiveRender venv (render_fps c) else venv.

(** Lines 103-111: the [with contextlib.ExitStack()] statement. *)
Definition rollout_block (I : Imports) (c : Config) (venv : VecEnv)
    (sample_until : SampleUntil) : ES unit :=
  with_ExitStack (
    venv <-
      match reward_type c with
      | Some rt =>
          reward_fn_ctx <- lift (call CLoadReward (load_reward I rt (reward_path c) venv)) ;;
          reward_fn <- enter_context RReward reward_fn_ctx ;;
          venv <- lift (sub CRewardVecEnvWrapper
                          (reward_wrapper_RewardVecEnvWrapper I venv reward_fn)) ;;
          let msg := ("Wrapped env in reward " ++ rt ++ " from "
                        ++ str_opt (reward_path c) ++ ".")%string in
          lift (call (CLogInfo msg) (tf_logging_info I msg)) ;;;
          ret venv
      | None => ret venv
      end ;;
    policy_ctx <- lift (call CLoadPolicy
                    (serialize_load_policy I (policy_type c) (policy_path c) venv)) ;;
    with_ RPolicy policy_ctx (fun policy =>
      trajs <- lift (sub CGenerateTrajectories
                 (rollout_generate_trajectories I policy venv sample_until)) ;;
      assign_trajs trajs)).

Definition eval_policy (I : Imports) (c : Config) : M Stats :=
  call (CMakedirs (log_dir c)) (os_makedirs I (log_dir c)) ;;;
  call (CSymlink (log_dir c)) (build_sacred_symlink I (log_dir c)) ;;;
  call CSetVerbosity (tf_logging_set_verbosity I) ;;;
  (let msg := ("Logging to " ++ log_dir c)%string in
   call (CLogInfo msg) (tf_logging_info I msg)) ;;;
  sample_until <- sub CMakeSampleUntil
                    (pure_res (rollout_make_sample_until I
                                 (eval_n_timesteps c) (eval_n_episodes c))) ;;
  base <- call CMakeVecEnv
            (util_make_vec_env I (env_name c) (num_vec c) (_seed c) (parallel c)
               (log_dir c) (max_episode_steps c)) ;;
  let venv := wrap_render c (of_base base) in
  in_frame (
    rollout_block I c venv sample_until ;;;
    trajs <- read_trajs ;;
    lift (sub CRolloutStats (pure_res (rollout_rollout_stats I trajs)))).

(** ** The modules the script calls

    [imitation.data.rollout] and [imitation.util.reward_wrapper] belong to
    the repository but their sources are not part of this development.  The
    definitions below follow their specification. *)

(** Modelled from the spec: [rollout.make_sample_until] is missing.  "Exactly
    one of minimum episodes or minimum timesteps must be configured, never
    both, never neither"; anything else is a configuration error.  The
    condition it builds is a predicate over (elapsed timesteps, elapsed
    episodes). *)
Definition make_sample_until (n_timesteps n_episodes : option Z)
    : Res SampleUntil :=
  match n_timesteps, n_episodes with
  | Some _, Some _ => Exc ValueError
  | Some t, None => Val (fun timesteps _ => (t <=? Z.of_nat timesteps)%Z)
  | None, Some k => Val (fun _ episodes => (k <=? Z.of_nat episodes)%Z)
  | None, None => Exc ValueError
  end.

(** *** The reward override wrapper *)

Definition alloc (c : Cell) : M nat :=
  fun w => ([], Val (length (heap w)), mkWorld (ext w) (heap w ++ [c])).

Definition read (l : nat) : M Cell :=
  fun w =>
    match heap w !! l with
    | Some c => ([], Val c, w)
    | None => ([], Exc (OtherError "AttributeError"), w)
    end.

Definition write (l : nat) (c : Cell) : M unit :=
  fun w => ([], Val tt, mkWorld (ext w) (<[l := c]> (heap w))).

(** Modelled from the spec: part of the missing [RewardVecEnvWrapper].  The
    next state of a step: the observation that came back or, when the step
    ended an episode, the observation the episode ended in. *)
Definition next_state (r : InstStep) : option Obs :=
  if i_done r then i_terminal r else Some (i_obs r).

(** Modelled from the spec: part of the missing [RewardVecEnvWrapper].  The
    rewards of one step, recomputed instance by instance from the
    observation the action was taken in (the state), the action, and the
    next state; [None] when the three batches differ in length or a next
    state is missing. *)
Fixpoint relabel (reward_fn : RewardFn) (obs : list Obs) (acts : list Act)
    (res : StepResult) : option StepResult :=
  match obs, acts, res with
  | [], [], [] => Some []
  | o :: obs', a :: acts', r :: res' =>
      o' ← next_state r;
      rest ← relabel reward_fn obs' acts' res';
      Some (mkInstStep (i_obs r) (reward_fn o a o') (i_done r) (i_info r)
              (i_terminal r)
              :: rest)
  | _, _, _ => None
  end.

(** Modelled from the spec: [reward_wrapper.RewardVecEnvWrapper] is missing.
    It "wraps a vectorized environment so that every step's reward is
    recomputed by a supplied reward function instead of the environment's
    native reward; all other step/reset semantics pass through unchanged".
    The reward function maps (state, action, next state) to a reward, so the
    object remembers, in its fields at [self], the observations it last
    handed out and the actions of the step in progress.  A step that ends
    an episode without reporting the observation it ended in has no next
    state: a missing key. *)
Definition RewardVecEnvWrapper_methods (venv : VecEnv) (reward_fn : RewardFn)
    (self : nat) : VecEnv :=
  {| m_reset :=
       obs <- reset venv ;;
       c <- read self ;;
       write self (mkCell (Some obs) (actions c)) ;;;
       ret obs;
     m_step_async := fun acts =>
       c <- read self ;;
       write self (mkCell (old_obs c) (Some acts)) ;;;
       step_async venv acts;
     m_step_wait :=
       res <- step_wait venv ;;
       c <- read self ;;
       match mapM next_state res with
       | None => raise (OtherError "KeyError")
       | Some _ =>
           match old_obs c, actions c with
           | Some obs, Some acts =>
               match relabel reward_fn obs acts res with
               | Some res' =>
                   write self (mkCell (Some (map i_obs res)) (actions c)) ;;;
                   ret res'
               | None => raise ValueError
               end
           | _, _ => raise ValueError
           end
       end;
     m_render := render venv |}.

(** Modelled from the spec: the constructor of the missing
    [RewardVecEnvWrapper]; a new object with both fields unset. *)
Definition RewardVecEnvWrapper (venv : VecEnv) (reward_fn : RewardFn)
    : M VecEnv :=
  self <- alloc (mkCell None None) ;;
  ret (RewardVecEnvWrapper_methods venv reward_fn self).

(** *** The rollout engine *)

(** Modelled from the spec: the state of the missing
    [rollout.generate_trajectories].  Per environment instance: the
    observation the next action is taken in, the steps of the episode in
    flight, and whether the instance still contributes trajectories. *)
Record Slot : Type := mkSlot {
  sl_obs : Obs;
  sl_partial : list Step;
  sl_active : bool;
}.

Record Rollout : Type := mkRollout {
  slots : list Slot;
  trajs : list Traj;
  n_steps : nat;
}.

Definition new_step (sl : Slot) (a : Act) (r : InstStep) : Step :=
  mkStep (sl_obs sl) a (i_rew r) (i_done r).

(** Modelled from the spec: part of the missing
    [rollout.generate_trajectories].  The trajectory an instance completes in
    this step, if any. *)
Definition completed (sl : Slot) (a : Act) (r : InstStep) : option Traj :=
  if sl_active sl && i_done r
  then Some (sl_partial sl ++ [new_step sl a r])
  else None.

(** Modelled from the spec: part of the missing
    [rollout.generate_trajectories].  The slot after the step: "partially
    completed episodes beyond the stopping threshold are still finished to
    completion before returning", so an instance that completes an episode once
    the stopping condition holds ([stop]) is retired; a retired instance
    records nothing. *)
Definition next_slot (stop : bool) (sl : Slot) (a : Act) (r : InstStep)
    : Slot :=
  if sl_active sl then
    if i_done r then mkSlot (i_obs r) [] (negb stop)
    else mkSlot (i_obs r) (sl_partial sl ++ [new_step sl a r]) true
  else mkSlot (i_obs r) [] false.

(** One entry per instance, or [None] when the batches differ in length. *)
Fixpoint zip3 {A B C} (l1 : list A) (l2 : list B) (l3 : list C)
    : option (list (A * B * C)) :=
  match l1, l2, l3 with
  | [], [], [] => Some []
  | a :: l1', b :: l2', c :: l3' =>
      rest ← zip3 l1' l2' l3'; Some ((a, b, c) :: rest)
  | _, _, _ => None
  end.

Definition count_active (sls : list Slot) : nat :=
  length (filter (fun sl => sl_active sl = true) sls).

(** Modelled from the spec: part of the missing
    [rollout.generate_trajectories].  The bookkeeping after one step of the
    vectorized environment. *)
Definition advance (sample_until : SampleUntil) (st : Rollout)
    (acts : list Act) (res : StepResult) : option Rollout :=
  z ← zip3 (slots st) acts res;
  let trajs' := trajs st ++ omap (fun '(sl, a, r) => completed sl a r) z in
  let n' := n_steps st + count_active (slots st) in
  let stop := sample_until n' (length trajs') in
  Some (mkRollout (map (fun '(sl, a, r) => next_slot stop sl a r) z) trajs' n').

(** Modelled from the spec: the loop of the missing
    [rollout.generate_trajectories].  It ends once the stopping condition
    holds and no episode is in flight any more; [fuel] bounds the number of
    steps this model follows. *)
Fixpoint rollout_loop (fuel : nat) (policy : Policy) (venv : VecEnv)
    (sample_until : SampleUntil) (st : Rollout) : M (list Traj) :=
  if sample_until (n_steps st) (length (trajs st))
     && negb (existsb sl_active (slots st))
  then ret (trajs st)
  else
    match fuel with
    | O => diverge
    | S fuel' =>
        acts <- call CPredict (policy (map sl_obs (slots st))) ;;
        res <- step venv acts ;;
        match advance sample_until st acts res with
        | Some st' => rollout_loop fuel' policy venv sample_until st'
        | None => raise ValueError
        end
    end.

(** Modelled from the spec: [rollout.generate_trajectories] is missing.  It
    "repeatedly queries the policy for actions and steps the environment
    until the stopping condition is satisfied ...; returns the completed
    trajectories", and "partially completed episodes beyond the stopping
    threshold are still finished to completion before returning". *)
Definition generate_trajectories (fuel : nat) (policy : Policy)
    (venv : VecEnv) (sample_until : SampleUntil) : M (list Traj) :=
  obs <- reset venv ;;
  rollout_loop fuel policy venv sample_until
    (mkRollout (map (fun o => mkSlot o [] true) obs) [] 0).

(** *** The statistics aggregator *)

Definition Qsum (l : list Q) : Q := foldr Qplus 0%Q l.

Definition Qmean (l : list Q) : Q :=
  (Qsum l / inject_Z (Z.of_nat (length l)))%Q.

(** Modelled from the spec: part of the missing [rollout.rollout_stats].  The
    sample variance, whose square root is "the correct sample standard
    deviation" that the aggregator is to yield (1 for the returns 1, 2 and
    3): the squared deviations from the mean, added up and divided by one
    less than their number.  Of a single value no sample variance is
    defined; the division by zero makes it 0 here. *)
Definition Qvar (l : list Q) : Q :=
  (Qsum (map (fun x => ((x - Qmean l) * (x - Qmean l))%Q) l)
   / inject_Z (Z.of_nat (length l) - 1))%Q.

Definition traj_return (t : Traj) : Q := Qsum (map s_rew t).

Definition traj_len (t : Traj) : Q := inject_Z (Z.of_nat (length t)).

(** Modelled from the spec: [rollout.rollout_stats] is missing.  "Given a
    sequence of trajectories, compute count, mean, and standard deviation of
    per-episode return and per-episode length; fails if given an empty
    sequence." *)
Definition rollout_stats (ts : list Traj) : Res Stats :=
  match ts with
  | [] => Exc ValueError
  | _ =>
      Val {| n_traj := length ts;
             return_mean := Qmean (map traj_return ts);
             return_var := Qvar (map traj_return ts);
             len_mean := Qmean (map traj_len ts);
             len_var := Qvar (map traj_len ts) |}
  end.

(** The script linked against these models; everything else stays a
    parameter. *)
Definition link (fuel : nat) (I : Imports) : Imports :=
  {| os_makedirs := os_makedirs I;
     build_sacred_symlink := build_sacred_symlink I;
     tf_logging_set_verbosity := tf_logging_set_verbosity I;
     tf_logging_info := tf_logging_info I;
     rollout_make_sample_until := make_sample_until;
     util_make_vec_env := util_make_vec_env I;
     load_reward := load_reward I;
     reward_wrapper_RewardVecEnvWrapper := RewardVecEnvWrapper;
     serialize_load_policy := serialize_load_policy I;
     rollout_generate_trajectories := generate_trajectories fuel;
     rollout_rollout_stats := rollout_stats |}.

End Harness.


Arguments World : clear implicits.
Arguments Cell : clear implicits.
Arguments M : clear implicits.
Arguments Ext : clear implicits.
Arguments InstStep : clear implicits.
Arguments StepResult : clear implicits.
Arguments VecEnv : clear implicits.
Arguments BaseEnv : clear implicits.
Arguments Step : clear implicits.
Arguments Traj : clear implicits.
Arguments RewardFn : clear implicits.
Arguments Policy : clear implicits.
Arguments ContextManager : clear implicits.
Arguments Imports : clear implicits.
Arguments Slot : clear implicits.
Arguments Rollout : clear implicits.
Arguments mkCM {X A} _ _.
Arguments cm_enter {X A} _.
Arguments cm_exit {X A} _ _.

(** ** Observations of a run

    Predicates over the calls a computation made directly (the top level of
    its call tree). *)

(** The durations of the [time.sleep] calls among a list of calls (the
    calls made directly, not those made inside them). *)
Definition slept (evs : list Event) : list Q :=
  omap (fun ev => match ev with
                  | EvCall (CSleep secs) _ _ => Some secs
                  | _ => None
                  end) evs.

(** What the wrapper does between the step and the render. *)
Definition frame_cap (fps : Z) : list Event :=
  if (0 <? fps)%Z
  then [EvCall (CSleep (1 # Z.to_pos fps)) [] Returned]
  else [].

(** The acquire/release protocol of resource [r] along a list of calls:
    [held] says whether [r] is held before the first call.  A resource is
    acquired by an [__enter__] that returns, and released by a call of
    [__exit__] (whatever it answers).  The result is true when acquisitions
    and releases alternate and nothing is held at the end. *)
Fixpoint balanced (r : Resource) (held : bool) (evs : list Event) : bool :=
  match evs with
  | [] => negb held
  | EvCall (CEnter r') _ Returned :: evs' =>
      if Resource_eqb r r' then negb held && balanced r true evs'
      else balanced r held evs'
  | EvCall (CExit r' _) _ _ :: evs' =>
      if Resource_eqb r r' then held && balanced r false evs'
      else balanced r held evs'
  | _ :: evs' => balanced r held evs'
  end.

(** The exception raised by the rollout engine, with the calls made after
    it, if the engine was called and raised. *)
Fixpoint rollout_raised (evs : list Event) : option (Exn * list Event) :=
  match evs with
  | [] => None
  | EvCall CGenerateTrajectories _ (Raised e) :: evs' => Some (e, evs')
  | _ :: evs' => rollout_raised evs'
  end.

(** The calls to the rollout engine: what each did and how it ended. *)
Definition rollout_calls (evs : list Event) : list (list Event * Outcome) :=
  omap (fun ev => match ev with
                  | EvCall CGenerateTrajectories inner o => Some (inner, o)
                  | _ => None
                  end) evs.

Definition acquired (r : Resource) (evs : list Event) : bool :=
  existsb (fun ev => match ev with
                     | EvCall (CEnter r') _ Returned => Resource_eqb r r'
                     | _ => false
                     end) evs.

Definition exit_called (r : Resource) (evs : list Event) : bool :=
  existsb (fun ev => match ev with
                     | EvCall (CExit r' _) _ _ => Resource_eqb r r'
                     | _ => false
                     end) evs.

(** Was the environment factory called? *)
Definition constructs_env (evs : list Event) : bool :=
  existsb (fun ev => match ev with
                     | EvCall CMakeVecEnv _ _ => true
                     | _ => false
                     end) evs.

(** The outcome of the call that builds the stopping condition, if made. *)
Fixpoint sample_until_outcome (evs : list Event) : option Outcome :=
  match evs with
  | [] => None
  | EvCall CMakeSampleUntil _ o :: _ => Some o
  | _ :: evs' => sample_until_outcome evs'
  end.

(** Lines 84-88 of [eval_policy]: the log directory, the Sacred symlink and
    the logging set-up, which come before the stopping condition is built. *)
Definition logging_setup {Obs Act Info X} (I : Imports Obs Act Info X)
    (c : Config) : M Obs Act X unit :=
  call (CMakedirs (log_dir c)) (os_makedirs I (log_dir c)) ;;;
  call (CSymlink (log_dir c)) (build_sacred_symlink I (log_dir c)) ;;;
  call CSetVerbosity (tf_logging_set_verbosity I) ;;;
  (let msg := ("Logging to " ++ log_dir c)%string in
   call (CLogInfo msg) (tf_logging_info I msg)).

(** Exactly one of [eval_n_timesteps] and [eval_n_episodes] is set. *)
Definition exactly_one_budget (c : Config) : bool :=
  match eval_n_timesteps c, eval_n_episodes c with
  | Some _, None | None, Some _ => true
  | Some _, Some _ | None, None => false
  end.

(** How the environment handed to the policy loader and to the rollout
    engine was obtained from [venv0] (lines 104-108); [w1] is the world in
    which the engine is called. *)
Definition reward_wrapped {Obs Act Info X} (I : Imports Obs Act Info X)
    (c : Config) (venv0 venv : VecEnv Obs Act Info X) (w1 : World Obs Act X)
    : Prop :=
  match reward_type c with
  | None => venv = venv0
  | Some rt =>
      exists reward_fn_ctx x x' reward_fn x'' w_a evw w_b,
        load_reward I rt (reward_path c) venv0 x = (Val reward_fn_ctx, x') /\
        cm_enter reward_fn_ctx x' = (Val reward_fn, x'') /\
        reward_wrapper_RewardVecEnvWrapper I venv0 reward_fn w_a
          = (evw, Val venv, w_b) /\
        heap w1 = heap w_b
  end.

(** ** Well-formed trajectories *)

(** The last step, and only the last, carries the done signal. *)
Fixpoint complete_episode {Obs Act} (t : Traj Obs Act) : bool :=
  match t with
  | [] => false
  | [s] => s_done s
  | s :: t' => negb (s_done s) && complete_episode t'
  end.

(** The first observation of the trajectory is [fresh]. *)
Definition starts_with {Obs Act} (fresh : Obs -> Prop) (t : Traj Obs Act)
    : Prop :=
  match t with
  | [] => False
  | s :: _ => fresh (s_obs s)
  end.

(** A trajectory is well formed when it begins at a reset and ends at a
    done signal.  "Begins at a reset" is stated for any property [fresh]
    that the environment guarantees of the observations that open an
    episode: those [reset] returns, and those a step returns together with
    a done signal (the instance has then been reset). *)
Definition well_formed {Obs Act} (fresh : Obs -> Prop) (t : Traj Obs Act)
    : Prop :=
  starts_with fresh t /\ complete_episode t = true.

(** The number of steps in a sequence of trajectories. *)
Definition total_len {Obs Act} (ts : list (Traj Obs Act)) : nat :=
  length (concat ts).

(** The rewards along [t] are those of [reward_fn] on each step's
    observation, action and next observation: the observation of the step
    that follows or, for the last step, [next]. *)
Fixpoint rewards_match {Obs Act} (reward_fn : RewardFn Obs Act)
    (t : Traj Obs Act) (next : Obs) : Prop :=
  match t with
  | [] => True
  | s :: t' =>
      s_rew s = reward_fn (s_obs s) (s_act s)
                  (match t' with [] => next | s' :: _ => s_obs s' end) /\
      rewards_match reward_fn t' next
  end.

(** A step without its reward, and two trajectories that differ in
    nothing but their rewards. *)
Definition erase {Obs Act} (s : Step Obs Act) : Obs * Act * bool :=
  (s_obs s, s_act s, s_done s).

Definition same_but_rewards {Obs Act} (t0 t : Traj Obs Act) : Prop :=
  map erase t0 = map erase t.

(** ** What a mean and a standard deviation are *)





(** ** Invariants of the rollout engine *)

Section invariants.

Context {Obs Act Info X : Type}.

(** A computation that runs outside: it neither reads nor writes the heap
    (the fields of the wrapper objects). *)
Definition runs_outside {A} (m : M Obs Act X A) : Prop :=
  forall x h ev r w',
    m (mkWorld x h) = (ev, r, w') ->
    heap w' = h /\ forall h', m (mkWorld x h') = (ev, r, mkWorld (ext w') h').

Definition venv_outside (venv : VecEnv Obs Act Info X) : Prop :=
  runs_outside (m_reset venv) /\
  (forall acts, runs_outside (m_step_async venv acts)) /\
  runs_outside (m_step_wait venv) /\
  runs_outside (m_render venv).

Section well_formedness.

Variable fresh : Obs -> Prop.

(** A slot is in order: the episode in flight has not ended and began at a
    fresh observation; a retired instance has nothing in flight. *)
Definition slot_ok (sl : Slot Obs Act) : Prop :=
  Forall (fun s => s_done s = false) (sl_partial sl) /\
  if sl_active sl
  then match sl_partial sl with
       | [] => fresh (sl_obs sl)
       | s :: _ => fresh (s_obs s)
       end
  else sl_partial sl = [].

Definition traj_ok (t : Traj Obs Act) : Prop :=
  complete_episode t = true /\ starts_with fresh t.

Definition fresh_after_done (r : InstStep Obs Info) : Prop :=
  i_done r = true -> fresh (i_obs r).

Record rollout_inv (st : Rollout Obs Act) : Prop := mkInv {
  inv_slots : Forall slot_ok (slots st);
  inv_trajs : Forall traj_ok (trajs st);
  inv_steps :
    n_steps st = total_len (trajs st) + total_len (map sl_partial (slots st));
}.

End well_formedness.

(** The rollout on a reward-wrapped environment, related to the rollout on
    the environment it wraps. *)
Section simulation_relations.

Variable reward_fn : RewardFn Obs Act.

(** [terminal] stands for any property of the observations that episodes
    end in. *)
Variable terminal : Obs -> Prop.

Definition terminal_ok (r : InstStep Obs Info) : Prop :=
  forall o, i_done r = true -> i_terminal r = Some o -> terminal o.

Definition slot_sim (sl0 sl : Slot Obs Act) : Prop :=
  sl_obs sl0 = sl_obs sl /\ sl_active sl0 = sl_active sl /\
  same_but_rewards (sl_partial sl0) (sl_partial sl) /\
  rewards_match reward_fn (sl_partial sl) (sl_obs sl).

Definition traj_sim (t0 t : Traj Obs Act) : Prop :=
  same_but_rewards t0 t /\
  exists next, terminal next /\ rewards_match reward_fn t next.

Definition inst_sim (sl : Slot Obs Act) (a : Act) (r r' : InstStep Obs Info)
    : Prop :=
  i_obs r' = i_obs r /\ i_done r' = i_done r /\
  exists o', next_state r = Some o' /\
             i_rew r' = reward_fn (sl_obs sl) a o' /\
             (i_done r = true -> terminal o').

Definition zipped_sim
    (p0 p : Slot Obs Act * Act * InstStep Obs Info) : Prop :=
  let '(sl0, a0, r) := p0 in
  let '(sl, a, r') := p in
  a0 = a /\ slot_sim sl0 sl /\ inst_sim sl a r r'.

Definition rollout_sim (st0 st : Rollout Obs Act) : Prop :=
  Forall2 slot_sim (slots st0) (slots st) /\
  Forall2 traj_sim (trajs st0) (trajs st) /\
  n_steps st0 = n_steps st.

End simulation_relations.

(** The wrapper object at [self] remembers the observations the engine is
    about to act on. *)
Definition fields_ok (self : nat) (st : Rollout Obs Act) (w : World Obs Act X)
    : Prop :=
  exists c, heap w !! self = Some c /\
            old_obs c = Some (map sl_obs (slots st)).

End invariants.

(** ** Termination of the rollout loop

    What makes the loop of the engine end: the environment and the policy
    always answer, and no episode lasts for ever. *)

Section termination.
Context {Obs Act Info X : Type}.

(** One step of one instance whose episode has [k] steps left: the step
    ends the episode exactly when [k = 1]; [k'] steps are left afterwards,
    of the same episode or of the next one, which lasts at most [L]. *)
Definition step_rel (L : nat) (k : nat) (r : InstStep Obs Info) (k' : nat)
    : Prop :=
  i_done r = (k =? 1)%nat /\ 1 <= k' <= L /\ (k <> 1 -> S k' = k).

(** A step that ends an episode reports the observation it ended in. *)
Definition reports_terminal (r : InstStep Obs Info) : Prop :=
  i_done r = true -> is_Some (i_terminal r).

(** An environment and a policy that always answer, with episodes of at most
    [L] steps: [rem w] tells how many steps each instance's episode has left
    in a world [w] that is [Good]. *)
Record bounded_episodes (venv : VecEnv Obs Act Info X)
    (policy : Policy Obs Act X) (L : nat) (Start Good : World Obs Act X -> Prop)
    (rem : World Obs Act X -> list nat) : Prop := mkBounded {
  be_rem : forall w,
    Good w -> rem w <> [] /\ Forall (fun k => 1 <= k <= L) (rem w);
  be_reset : forall w,
    Start w ->
    exists ev obs w',
      reset venv w = (ev, Val obs, w') /\ Good w' /\
      length obs = length (rem w');
  be_policy : forall w obs,
    Good w -> length obs = length (rem w) ->
    exists ev acts w',
      call CPredict (policy obs) w = (ev, Val acts, w') /\ Good w' /\
      rem w' = rem w /\ length acts = length obs;
  be_step : forall w acts,
    Good w -> length acts = length (rem w) ->
    exists ev res w',
      step venv acts w = (ev, Val res, w') /\ Good w' /\
      Forall3 (step_rel L) (rem w) res (rem w') /\
      Forall reports_terminal res;
}.

(** The longest time an episode in flight still takes. *)
Fixpoint in_flight (sls : list (Slot Obs Act)) (ks : list nat) : nat :=
  match sls, ks with
  | sl :: sls', k :: ks' =>
      Nat.max (if sl_active sl then k else 0) (in_flight sls' ks')
  | _, _ => 0
  end.

(** [d timesteps episodes] measures how far the stopping condition is from
    being met. *)
Definition progresses (su : SampleUntil) (d : nat -> nat -> nat) : Prop :=
  (forall n e, su n e = true <-> d n e = 0) /\
  (forall n e i j, d (n + i) (e + j) <= d n e) /\
  (forall n e i j, 1 <= i -> 1 <= j -> 0 < d n e -> d (n + i) (e + j) < d n e).

Definition term_inv (d : nat -> nat -> nat) (Good : World Obs Act X -> Prop)
    (rem : World Obs Act X -> list nat) (st : Rollout Obs Act)
    (w : World Obs Act X) : Prop :=
  Good w /\ length (slots st) = length (rem w) /\
  (0 < d (n_steps st) (length (trajs st)) ->
   Forall (fun sl => sl_active sl = true) (slots st)).

End termination.

(** ** A world in which the script returns

    What the callees of [eval_policy] have to do for a run to return: every
    outside call answers, and the environment of the factory has episodes
    of at most [L] steps.  [Inv] holds of the outside state between the
    calls of the script, [Good] of the state during the rollout, where
    [rem] tells how many steps each instance's episode has left. *)

Section cooperation.

Context {Obs Act Info X : Type}.
Variables (L : nat) (Inv Good : X -> Prop) (rem : X -> list nat).

(** From a state that satisfies [P] the outside call [f] returns, and [Q]
    holds of the state before, the value and the state after. *)
Definition answers {A} (P : X -> Prop) (f : Ext X A)
    (Q : X -> A -> X -> Prop) : Prop :=
  forall x, P x -> exists a x', f x = (Val a, x') /\ Q x a x'.

Record bounded_base (b : BaseEnv Obs Act Info X) : Prop := mkBoundedBase {
  bb_rem : forall x,
    Good x ->
    Inv x /\ rem x <> [] /\ Forall (fun k => 1 <= k <= L)%nat (rem x);
  bb_reset :
    answers Inv (b_reset b)
      (fun _ obs x' => Good x' /\ length obs = length (rem x'));
  bb_step_async : forall acts,
    answers Good (b_step_async b acts)
      (fun x _ x' => Good x' /\ rem x' = rem x);
  bb_step_wait :
    answers Good (b_step_wait b)
      (fun x res x' =>
         Good x' /\ Forall3 (step_rel L) (rem x) res (rem x') /\
         Forall reports_terminal res);
  bb_render :
    answers Good (b_render b) (fun x _ x' => Good x' /\ rem x' = rem x);
}.

Definition bounded_policy (policy : Policy Obs Act X) : Prop :=
  forall obs,
    answers Good (policy obs)
      (fun x acts x' =>
         Good x' /\ rem x' = rem x /\ length acts = length obs).

(** A context manager whose [__enter__] and [__exit__] return. *)
Definition cooperative_resource {A} (cm : ContextManager X A)
    (R : A -> Prop) : Prop :=
  answers Inv (cm_enter cm) (fun _ v x' => Inv x' /\ R v) /\
  forall exc, answers Inv (cm_exit cm exc) (fun _ _ x' => Inv x').

Record cooperative (I : Imports Obs Act Info X) : Prop := mkCooperative {
  co_makedirs : forall path,
    answers Inv (os_makedirs I path) (fun _ _ x' => Inv x');
  co_symlink : forall path,
    answers Inv (build_sacred_symlink I path) (fun _ _ x' => Inv x');
  co_set_verbosity :
    answers Inv (tf_logging_set_verbosity I) (fun _ _ x' => Inv x');
  co_info : forall msg,
    answers Inv (tf_logging_info I msg) (fun _ _ x' => Inv x');
  co_make_vec_env : forall env_name num_vec seed parallel log_dir steps,
    answers Inv
      (util_make_vec_env I env_name num_vec seed parallel log_dir steps)
      (fun _ base x' => Inv x' /\ bounded_base base);
  co_load_reward : forall reward_type reward_path venv,
    answers Inv (load_reward I reward_type reward_path venv)
      (fun _ cm x' => Inv x' /\ cooperative_resource cm (fun _ => True));
  co_load_policy : forall policy_type policy_path venv,
    answers Inv (serialize_load_policy I policy_type policy_path venv)
      (fun _ cm x' => Inv x' /\ cooperative_resource cm bounded_policy);
}.

End cooperation.

(** The worlds in which the reward wrapper object at [self] can be reset,
    and those in which it can be stepped: it remembers as many observations
    as there are instances. *)
Definition wrapper_start {Obs Act X} (Inv : X -> Prop) (self : nat)
    (w : World Obs Act X) : Prop :=
  Inv (ext w) /\ is_Some (heap w !! self).

Definition wrapper_good {Obs Act X} (Good : X -> Prop) (rem : X -> list nat)
    (self : nat) (w : World Obs Act X) : Prop :=
  Good (ext w) /\
  exists c obs, heap w !! self = Some c /\ old_obs c = Some obs /\
                length obs = length (rem (ext w)).

(** A property of the outside state, as a property of the world. *)
Definition on_ext {Obs Act X A} (P : X -> A) (w : World Obs Act X) : A :=
  P (ext w).

(** ** A small world to run the script in

    Two environment instances whose episodes last two and three steps, an
    observation that counts the steps of the episode, a native reward of 1,
    resources that record their release, and a simulator that can be told
    to crash at a given step. *)
Module Toy.

Record X : Type := mkX {
  pos : list nat;
  clock : nat;
  crash_at : option nat;
  released : list (Resource * option Exn);
  frames : nat;
}.

Definition episode_len : list nat := [2; 3]%nat.

Definition advance_inst (p len : nat) : InstStep nat unit :=
  if (S p =? len)%nat then mkInstStep 0%nat 1%Q true tt (Some (S p))
  else mkInstStep (S p) 1%Q false tt None.

Definition b_reset : Ext X (list nat) :=
  fun x => (Val (map (fun _ => 0%nat) episode_len),
            mkX (map (fun _ => 0%nat) episode_len) (clock x) (crash_at x)
              (released x) (frames x)).

Definition b_step_async (acts : list nat) : Ext X unit := fun x => (Val tt, x).

Definition b_step_wait : Ext X (StepResult nat unit) :=
  fun x =>
    if bool_decide (crash_at x = Some (clock x)) then (Exc OSError, x)
    else
      let res := zip_with advance_inst (pos x) episode_len in
      (Val res, mkX (map i_obs res) (S (clock x)) (crash_at x) (released x)
                  (frames x)).

Definition b_render : Ext X unit :=
  fun x => (Val tt, mkX (pos x) (clock x) (crash_at x) (released x)
                      (S (frames x))).

Definition base : BaseEnv nat nat unit X :=
  mkBaseEnv b_reset b_step_async b_step_wait b_render.

Definition policy : Policy nat nat X :=
  fun obs x => (Val (map (fun o => (o + 10)%nat) obs), x).

(** A fake resource: [__exit__] records the call and suppresses nothing. *)
Definition resource {A} (r : Resource) (v : A) : ContextManager X A :=
  mkCM (fun x => (Val v, x))
       (fun exc x => (Val false,
                      mkX (pos x) (clock x) (crash_at x)
                        (released x ++ [(r, exc)]) (frames x))).

Definition five : RewardFn nat nat := fun _ _ _ => 5%Q.

Definition ok : Ext X unit := fun x => (Val tt, x).

Definition imports (fuel : nat) : Imports nat nat unit X :=
  {| os_makedirs := fun _ => ok;
     build_sacred_symlink := fun _ => ok;
     tf_logging_set_verbosity := ok;
     tf_logging_info := fun _ => ok;
     rollout_make_sample_until := make_sample_until;
     util_make_vec_env := fun _ _ _ _ _ _ x => (Val base, x);
     load_reward := fun _ _ _ x => (Val (resource RReward five), x);
     reward_wrapper_RewardVecEnvWrapper := RewardVecEnvWrapper;
     serialize_load_policy := fun _ _ _ x => (Val (resource RPolicy policy), x);
     rollout_generate_trajectories := generate_trajectories fuel;
     rollout_rollout_stats := rollout_stats |}.

Definition config (n_timesteps n_episodes : option Z) (render : bool)
    (fps : Z) (reward : option string) : Config :=
  {| _seed := 0; env_name := "CartPole-v1";
     eval_n_timesteps := n_timesteps; eval_n_episodes := n_episodes;
     num_vec := 2; parallel := false;
     render_flag := render; render_fps := fps;
     log_dir := "output"; policy_type := "ppo2"; policy_path := "policy";
     reward_type := reward; reward_path := Some "reward";
     max_episode_steps := None |}.

Definition x0 (crash : option nat) : X := mkX [] 0 crash [] 0.

Definition w0 (crash : option nat) : World nat nat X := mkWorld (x0 crash) [].

(** The toy simulator, when it is not told to crash, has episodes of at most
    three steps: [rem] is what is left of the episodes in flight. *)
Definition Inv (x : X) : Prop := crash_at x = None.

Definition Good (x : X) : Prop :=
  crash_at x = None /\
  exists p q, pos x = [p; q] /\ p < 2 /\ q < 3.

Definition rem (x : X) : list nat :=
  zip_with Nat.sub episode_len (pos x).

End Toy.

(** ** More observations of a run *)

Definition callee (ev : Event) : Call :=
  match ev with EvCall c _ _ => c end.

Definition outcome (ev : Event) : Outcome :=
  match ev with EvCall _ _ o => o end.

Definition is_exit (ev : Event) : bool :=
  match ev with
  | EvCall (CExit _ _) _ _ => true
  | _ => false
  end.

Definition raised (ev : Event) : bool :=
  match ev with
  | EvCall _ _ (Raised _) => true
  | _ => false
  end.

(** Once a call other than an [__exit__] has raised, only [__exit__] calls
    follow. *)
Fixpoint fail_fast (evs : list Event) : bool :=
  match evs with
  | [] => true
  | ev :: evs' =>
      if raised ev && negb (is_exit ev) then forallb is_exit evs'
      else fail_fast evs'
  end.

(** Some call other than an [__exit__] raised. *)
Definition failed_call (evs : list Event) : bool :=
  existsb (fun ev => raised ev && negb (is_exit ev)) evs.

(** What happens to the scoped resources along a list of calls: an
    [__enter__] that returns acquires, a call of [__exit__] releases. *)
Inductive ResourceOp : Type :=
| Acquire (r : Resource)
| Release (r : Resource).

Definition resource_ops (evs : list Event) : list ResourceOp :=
  omap (fun ev => match ev with
                  | EvCall (CEnter r) _ Returned => Some (Acquire r)
                  | EvCall (CExit r _) _ _ => Some (Release r)
                  | _ => None
                  end) evs.

(** The calls that have to do with the reward override (lines 105-108, and
    the release of the reward function). *)
Definition reward_call (c : Call) : bool :=
  match c with
  | CLoadReward | CRewardVecEnvWrapper | CEnter RReward | CExit RReward _ =>
      true
  | _ => false
  end.

(** The calls of [eval_policy] in the order of its statements, for a run in
    which every statement completes: lines 84-97, the reward override of
    lines 105-108 when a reward type is configured, lines 110-111 with the
    two [__exit__]s, and line 112.  [exc] is what the reward function's
    [__exit__] is called with. *)
Definition calls_of_a_full_run (c : Config) (exc : option Exn) : list Call :=
  [CMakedirs (log_dir c); CSymlink (log_dir c); CSetVerbosity;
   CLogInfo ("Logging to " ++ log_dir c); CMakeSampleUntil; CMakeVecEnv]
  ++ match reward_type c with
     | Some rt =>
         [CLoadReward; CEnter RReward; CRewardVecEnvWrapper;
          CLogInfo ("Wrapped env in reward " ++ rt ++ " from "
                      ++ str_opt (reward_path c) ++ ".")]
     | None => []
     end
  ++ [CLoadPolicy; CEnter RPolicy; CGenerateTrajectories; CExit RPolicy None]
  ++ match reward_type c with
     | Some _ => [CExit RReward exc]
     | None => []
     end
  ++ [CRolloutStats].

(** A call without the argument of [__exit__]. *)
Definition call_kind (c : Call) : Call :=
  match c with
  | CExit r _ => CExit r None
  | _ => c
  end.

(** The configuration with another [reward_path]. *)
Definition with_reward_path (p : option string) (c : Config) : Config :=
  {| _seed := _seed c; env_name := env_name c;
     eval_n_timesteps := eval_n_timesteps c;
     eval_n_episodes := eval_n_episodes c;
     num_vec := num_vec c; parallel := parallel c;
     render_flag := render_flag c; render_fps := render_fps c;
     log_dir := log_dir c; policy_type := policy_type c;
     policy_path := policy_path c;
     reward_type := reward_type c; reward_path := p;
     max_episode_steps := max_episode_steps c |}.

Section resources.

Context {Obs Act Info X : Type}.

(** A context manager whose [__exit__] returns a false value: it neither
    raises nor suppresses. *)
Definition quiet {A} (cm : ContextManager X A) : Prop :=
  forall exc x, exists x', cm_exit cm exc x = (Val false, x').

(** A context manager whose [__exit__] returns, true or false. *)
Definition exit_returns {A} (cm : ContextManager X A) : Prop :=
  forall exc x, exists b x', cm_exit cm exc x = (Val b, x').

(** A context manager whose [__exit__] swallows the exception it is given. *)
Definition swallows {A} (cm : ContextManager X A) : Prop :=
  forall e x, exists x', cm_exit cm (Some e) x = (Val true, x').

(** What the two loaders yield, when they return. *)
Definition policy_resources (I : Imports Obs Act Info X)
    (P : ContextManager X (Policy Obs Act X) -> Prop) : Prop :=
  forall policy_type policy_path venv x cm x',
    serialize_load_policy I policy_type policy_path venv x = (Val cm, x') ->
    P cm.

Definition reward_resources (I : Imports Obs Act Info X)
    (P : ContextManager X (RewardFn Obs Act) -> Prop) : Prop :=
  forall reward_type reward_path venv x cm x',
    load_reward I reward_type reward_path venv x = (Val cm, x') ->
    P cm.

End resources.

(** What a computation returns and the state it leaves, without the calls
    it made. *)
Definition result_of {S A} (m : St S A) (s : S) : Res A * S :=
  let '(_, r, s') := m s in (r, s').

(** An environment whose [render] returns and leaves the world as it is
    (it draws, and nothing else). *)
Definition render_neutral {Obs Act Info X} (venv : VecEnv Obs Act Info X)
    : Prop :=
  forall w, exists ev, render venv w = (ev, Val tt, w).

(** ** More of the toy world *)

Module ToyMore.

(** The toy simulator with a render that only draws. *)
Definition still_base : BaseEnv nat nat unit Toy.X :=
  mkBaseEnv Toy.b_reset Toy.b_step_async Toy.b_step_wait Toy.ok.

(** A fake resource whose [__exit__] records the call and swallows the
    exception it is given. *)
Definition swallowing {A} (r : Resource) (v : A) : ContextManager Toy.X A :=
  mkCM (fun x => (Val v, x))
       (fun exc x => (Val (match exc with Some _ => true | None => false end),
                      Toy.mkX (Toy.pos x) (Toy.clock x) (Toy.crash_at x)
                        (Toy.released x ++ [(r, exc)]) (Toy.frames x))).


(** A reward function that tells the next state it is given. *)
Definition next_obs : RewardFn nat nat :=
  fun _ _ o' => inject_Z (Z.of_nat o').

(** The toy imports, with [next_obs] for the reward function. *)
Definition imports_next (fuel : nat) : Imports nat nat unit Toy.X :=
  {| os_makedirs := fun _ => Toy.ok;
     build_sacred_symlink := fun _ => Toy.ok;
     tf_logging_set_verbosity := Toy.ok;
     tf_logging_info := fun _ => Toy.ok;
     rollout_make_sample_until := make_sample_until;
     util_make_vec_env := fun _ _ _ _ _ _ x => (Val Toy.base, x);
     load_reward := fun _ _ _ x => (Val (Toy.resource RReward next_obs), x);
     reward_wrapper_RewardVecEnvWrapper := RewardVecEnvWrapper;
     serialize_load_policy :=
       fun _ _ _ x => (Val (Toy.resource RPolicy Toy.policy), x);
     rollout_generate_trajectories := generate_trajectories fuel;
     rollout_rollout_stats := rollout_stats |}.

(** The toy imports, with a policy resource that swallows exceptions. *)
Definition imports (fuel : nat) : Imports nat nat unit Toy.X :=
  {| os_makedirs := fun _ => Toy.ok;
     build_sacred_symlink := fun _ => Toy.ok;
     tf_logging_set_verbosity := Toy.ok;
     tf_logging_info := fun _ => Toy.ok;
     rollout_make_sample_until := make_sample_until;
     util_make_vec_env := fun _ _ _ _ _ _ x => (Val Toy.base, x);
     load_reward := fun _ _ _ x => (Val (Toy.resource RReward Toy.five), x);
     reward_wrapper_RewardVecEnvWrapper := RewardVecEnvWrapper;
     serialize_load_policy :=
       fun _ _ _ x => (Val (swallowing RPolicy Toy.policy), x);
     rollout_generate_trajectories := generate_trajectories fuel;
     rollout_rollout_stats := rollout_stats |}.

End ToyMore.

(** ** Running a computation: inversion lemmas *)

Section Runs.

Context {S : Type}.

Lemma bind_run {A B} (m : St S A) (k : A -> St S B) s :
  bind m k s =
    match m s with
    | (ev, Val a, s1) => let '(ev', r, s2) := k a s1 in (ev ++ ev', r, s2)
    | (ev, Exc e, s1) => (ev, Exc e, s1)
    | (ev, Div, s1) => (ev, Div, s1)
    end.
Proof. reflexivity. Qed.

Lemma bind_Val {A B} (m : St S A) (k : A -> St S B) s ev a s1 :
  m s = (ev, Val a, s1) ->
  bind m k s = (let '(ev', r, s2) := k a s1 in (ev ++ ev', r, s2)).
Proof. intros H. unfold bind. now rewrite H. Qed.

Lemma bind_Exc {A B} (m : St S A) (k : A -> St S B) s ev e s1 :
  m s = (ev, Exc e, s1) -> bind m k s = (ev, Exc e, s1).
Proof. intros H. unfold bind. now rewrite H. Qed.

Lemma bind_Div {A B} (m : St S A) (k : A -> St S B) s ev s1 :
  m s = (ev, Div, s1) -> bind m k s = (ev, Div, s1).
Proof. intros H. unfold bind. now rewrite H. Qed.

(** A [bind] that returns: both halves returned. *)
Lemma bind_Val_inv {A B} (m : St S A) (k : A -> St S B) s ev b s2 :
  bind m k s = (ev, Val b, s2) ->
  exists ev1 a s1 ev2,
    m s = (ev1, Val a, s1) /\ k a s1 = (ev2, Val b, s2) /\ ev = ev1 ++ ev2.
Proof.
  unfold bind. destruct (m s) as [[ev1 [a| |]] s1]; try discriminate.
  destruct (k a s1) as [[ev2 r] s2'] eqn:Hk. intros [= <- -> <-].
  now exists ev1, a, s1, ev2.
Qed.

Lemma sub_run {A} c (m : St S A) s :
  sub c m s = (let '(ev, r, s1) := m s in ([EvCall c ev (outcome_of r)], r, s1)).
Proof. reflexivity. Qed.

Lemma sub_inv {A} c (m : St S A) s ev r s1 :
  sub c m s = (ev, r, s1) ->
  exists ev0, m s = (ev0, r, s1) /\ ev = [EvCall c ev0 (outcome_of r)].
Proof.
  unfold sub. destruct (m s) as [[ev0 r0] s0]. intros [= <- <- <-].
  now exists ev0.
Qed.

End Runs.

Section InteractiveRender_facts.

Context {Obs Act Info X : Type}.
Implicit Types (venv : VecEnv Obs Act Info X) (w : World Obs Act X) (fps : Z).

Lemma truediv_pos fps : (0 < fps)%Z -> truediv 1 fps = Val (1 # Z.to_pos fps).
Proof.
  intros H. unfold truediv. destruct (Z.eqb_spec fps 0) as [->|_]; [lia|].
  rewrite Z.sgn_pos, Z.abs_eq by lia. reflexivity.
Qed.

(** The part of [step_wait] between the two forwarded calls. *)
Lemma frame_cap_run fps w :
  ((if (0 <? fps)%Z
    then secs <- pure_res (truediv 1 fps) ;; time_sleep secs
    else ret tt) : St (World Obs Act X) unit) w = (frame_cap fps, Val tt, w).
Proof.
  unfold frame_cap. destruct (Z.ltb_spec 0 fps) as [H|H]; [|reflexivity].
  unfold bind, pure_res. rewrite truediv_pos by done. reflexivity.
Qed.

(** C6.  [InteractiveRender] is a pass-through.  [reset] returns an
    observation exactly when the wrapped environment's [reset] returns it
    and the render that follows returns; [step_wait] returns a step result
    exactly when the wrapped environment's [step_wait] returns that very
    result (observations, rewards, done flags and infos) and the render that
    follows returns.  In both cases the wrapper's own calls are the forwarded
    call, the frame-rate sleep (for [step_wait], when [fps] is positive) and
    the render, in this order, and the world is the one they leave. *)
Theorem InteractiveRender_pass_through venv fps w :
  (forall ev ob w',
     reset (InteractiveRender venv fps) w = (ev, Val ob, w') <->
     exists ev1 w1 ev2,
       reset venv w = (ev1, Val ob, w1) /\
       render venv w1 = (ev2, Val tt, w') /\
       ev = [EvCall CReset (ev1 ++ ev2) Returned]) /\
  (forall ev res w',
     step_wait (InteractiveRender venv fps) w = (ev, Val res, w') <->
     exists ev1 w1 ev2,
       step_wait venv w = (ev1, Val res, w1) /\
       render venv w1 = (ev2, Val tt, w') /\
       ev = [EvCall CStepWait (ev1 ++ frame_cap fps ++ ev2) Returned]).
Proof.
  split; intros ev ob w'.
  - unfold reset at 1. cbn [m_reset InteractiveRender]. split.
    + intros (ev0 & Hrun & ->)%sub_inv.
      apply bind_Val_inv in Hrun as (ev1 & ob1 & w1 & ev' & H1 & Hrun & ->).
      apply bind_Val_inv in Hrun as (ev2 & [] & w2 & ev3 & H2 & [= <- <- <-] & ->).
      exists ev1, w1, ev2. now rewrite app_nil_r.
    + intros (ev1 & w1 & ev2 & H1 & H2 & ->).
      rewrite sub_run, (bind_Val _ _ _ _ _ _ H1), (bind_Val _ _ _ _ _ _ H2).
      cbn. now rewrite app_nil_r.
  - unfold step_wait at 1. cbn [m_step_wait InteractiveRender]. split.
    + intros (ev0 & Hrun & ->)%sub_inv.
      apply bind_Val_inv in Hrun as (ev1 & ob1 & w1 & ev' & H1 & Hrun & ->).
      apply bind_Val_inv in Hrun as (evs & [] & ws & ev'' & Hs & Hrun & ->).
      rewrite frame_cap_run in Hs. injection Hs as <- <-.
      apply bind_Val_inv in Hrun as (ev2 & [] & w2 & ev3 & H2 & [= <- <- <-] & ->).
      exists ev1, w1, ev2. now rewrite app_nil_r.
    + intros (ev1 & w1 & ev2 & H1 & H2 & ->).
      rewrite sub_run, (bind_Val _ _ _ _ _ _ H1).
      rewrite (bind_Val _ _ _ _ _ _ (frame_cap_run fps w1)).
      rewrite (bind_Val _ _ _ _ _ _ H2).
      cbn. now rewrite app_nil_r.
Qed.

Lemma slept_app (ev1 ev2 : list Event) : slept (ev1 ++ ev2) = slept ev1 ++ slept ev2.
Proof. unfold slept. apply omap_app. Qed.

Lemma frame_cap_nonpos fps : (fps <= 0)%Z -> frame_cap fps = [].
Proof. unfold frame_cap. destruct (Z.ltb_spec 0 fps); [lia|done]. Qed.

Lemma slept_frame_cap fps q :
  q ∈ slept (frame_cap fps) -> (0 < fps)%Z /\ q = 1 # Z.to_pos fps.
Proof.
  unfold frame_cap. destruct (Z.ltb_spec 0 fps) as [H|H]; cbn.
  - intros ->%list_elem_of_singleton. done.
  - intros []%elem_of_nil.
Qed.

(** The calls [step_wait] of the wrapper makes, whatever their outcome: the
    forwarded step; then, if it returned, the frame-rate sleep and the
    render. *)
Lemma InteractiveRender_step_wait_calls venv fps w ev r w' :
  m_step_wait (InteractiveRender venv fps) w = (ev, r, w') ->
  exists ev1 r1 w1,
    step_wait venv w = (ev1, r1, w1) /\ slept ev1 = [] /\
    match r1 with
    | Val res =>
        exists ev2 r2,
          render venv w1 = (ev2, r2, w') /\ slept ev2 = [] /\
          ev = ev1 ++ frame_cap fps ++ ev2 /\
          r = match r2 with Val _ => Val res | Exc e => Exc e | Div => Div end
    | Exc e => ev = ev1 /\ r = Exc e /\ w' = w1
    | Div => ev = ev1 /\ r = Div /\ w' = w1
    end.
Proof.
  cbn [m_step_wait InteractiveRender]. rewrite bind_run.
  destruct (step_wait venv w) as [[ev1 r1] w1] eqn:H1. intros Hrun.
  assert (slept ev1 = []) as Hs1.
  { apply sub_inv in H1 as (? & _ & ->). done. }
  exists ev1, r1, w1. split; [done|]. split; [done|].
  destruct r1 as [res|e|]; [|by injection Hrun as <- <- <-..].
  rewrite (bind_Val _ _ _ _ _ _ (frame_cap_run fps w1)), bind_run in Hrun.
  destruct (render venv w1) as [[ev2 r2] w2] eqn:H2.
  assert (slept ev2 = []) as Hs2.
  { apply sub_inv in H2 as (? & _ & ->). done. }
  destruct r2 as [[]|e|]; cbn in Hrun; injection Hrun as <- <- <-; exists ev2;
    eexists; (split; [done|]); rewrite ?app_nil_r; done.
Qed.

(** C10.  With [render_fps <= 0] (zero included) [step_wait] does not sleep
    and does not divide: its run is that of "forward the step, render,
    return the step result", it makes no [time.sleep] call, and it raises
    [ZeroDivisionError] only if the wrapped environment does.  Whatever the
    frame rate, a sleep made by [step_wait] lasts [1 / render_fps] seconds
    and is made only when [render_fps > 0]. *)
Theorem InteractiveRender_sleeps_only_for_positive_fps venv fps w ev r w' :
  m_step_wait (InteractiveRender venv fps) w = (ev, r, w') ->
  ((fps <= 0)%Z ->
     (ob <- step_wait venv ;; render venv ;;; ret ob) w = (ev, r, w') /\
     slept ev = [] /\
     (r = Exc ZeroDivisionError ->
        (exists ev1 w1, step_wait venv w = (ev1, Exc ZeroDivisionError, w1)) \/
        (exists ev1 res w1 ev2,
           step_wait venv w = (ev1, Val res, w1) /\
           render venv w1 = (ev2, Exc ZeroDivisionError, w')))) /\
  (forall q, q ∈ slept ev -> (0 < fps)%Z /\ q = 1 # Z.to_pos fps).
Proof.
  intros Hrun.
  destruct (InteractiveRender_step_wait_calls _ _ _ _ _ _ Hrun)
    as (ev1 & r1 & w1 & H1 & Hs1 & Hrest).
  split.
  - intros Hfps. rewrite bind_run, H1.
    destruct r1 as [res|e|].
    + destruct Hrest as (ev2 & r2 & H2 & Hs2 & -> & ->).
      rewrite frame_cap_nonpos by done. rewrite bind_run, H2. cbn [app].
      split; [by destruct r2 as [[]| |]; cbn; rewrite ?app_nil_r|].
      split; [by rewrite slept_app, Hs1, Hs2|].
      destruct r2 as [[]|e|]; [done| |done]. intros [= ->].
      right. by exists ev1, res, w1, ev2.
    + destruct Hrest as (-> & -> & ->). split; [done|]. split; [done|].
      intros [= ->]. left. by exists ev1, w1.
    + destruct Hrest as (-> & -> & ->). done.
  - intros q. destruct r1 as [res|e|].
    + destruct Hrest as (ev2 & r2 & H2 & Hs2 & -> & ->).
      rewrite !slept_app, Hs1, Hs2, app_nil_r. cbn [app].
      apply slept_frame_cap.
    + destruct Hrest as (-> & _). rewrite Hs1. intros []%elem_of_nil.
    + destruct Hrest as (-> & _). rewrite Hs1. intros []%elem_of_nil.
Qed.

(** A [step_wait] of the wrapper that returns. *)
Lemma InteractiveRender_step_wait_inv venv fps w ev res w' :
  step_wait (InteractiveRender venv fps) w = (ev, Val res, w') ->
  exists ev1 w1 ev2,
    step_wait venv w = (ev1, Val res, w1) /\
    render venv w1 = (ev2, Val tt, w') /\
    ev = [EvCall CStepWait (ev1 ++ frame_cap fps ++ ev2) Returned].
Proof.
  intros (ev0 & Hrun & ->)%sub_inv.
  destruct (InteractiveRender_step_wait_calls _ _ _ _ _ _ Hrun)
    as (ev1 & r1 & w1 & H1 & _ & Hrest).
  destruct r1 as [res1| |]; [|by destruct Hrest as (_ & ? & _)..].
  destruct Hrest as (ev2 & r2 & H2 & _ & -> & Hr).
  destruct r2 as [[]| |]; try done. injection Hr as <-.
  by exists ev1, w1, ev2.
Qed.

End InteractiveRender_facts.

(** ** The statistics aggregator *)











(** ** The rollout engine *)

Section rollout_engine_facts.
Context {Obs Act Info X : Type}.
Implicit Types (venv : VecEnv Obs Act Info X) (w : World Obs Act X)
  (st : Rollout Obs Act) (sl : Slot Obs Act) (r : InstStep Obs Info)
  (res : StepResult Obs Info) (sls : list (Slot Obs Act)) (acts : list Act)
  (policy : Policy Obs Act X) (su : SampleUntil).

Lemma zip3_nil_inv {A B C} (l1 : list A) (l2 : list B) (l3 : list C) :
  zip3 l1 l2 l3 = Some [] -> l1 = [] /\ l2 = [] /\ l3 = [].
Proof.
  destruct l1, l2, l3; cbn; try done.
  destruct (zip3 l1 l2 l3); done.
Qed.

Lemma zip3_cons_inv {A B C} (l1 : list A) (l2 : list B) (l3 : list C) x z :
  zip3 l1 l2 l3 = Some (x :: z) ->
  exists a b c l1' l2' l3',
    x = (a, b, c) /\ l1 = a :: l1' /\ l2 = b :: l2' /\ l3 = c :: l3' /\
    zip3 l1' l2' l3' = Some z.
Proof.
  destruct l1 as [|a l1], l2 as [|b l2], l3 as [|c l3]; cbn; try done.
  destruct (zip3 l1 l2 l3) as [z'|] eqn:Hz; cbn; [|done].
  intros [= <- <-]. by exists a, b, c, l1, l2, l3.
Qed.

(** An induction principle for three batches zipped together. *)
Lemma zip3_ind {A B C} (P : list A -> list B -> list C -> list (A * B * C) -> Prop) :
  P [] [] [] [] ->
  (forall a b c l1 l2 l3 z,
     zip3 l1 l2 l3 = Some z -> P l1 l2 l3 z ->
     P (a :: l1) (b :: l2) (c :: l3) ((a, b, c) :: z)) ->
  forall l1 l2 l3 z, zip3 l1 l2 l3 = Some z -> P l1 l2 l3 z.
Proof.
  intros Hnil Hcons l1 l2 l3 z. revert l1 l2 l3.
  induction z as [|x z IH]; intros l1 l2 l3 Hz.
  - by apply zip3_nil_inv in Hz as (-> & -> & ->).
  - apply zip3_cons_inv in Hz
      as (a & b & c & l1' & l2' & l3' & -> & -> & -> & -> & Hz).
    auto.
Qed.

Lemma complete_episode_snoc (p : Traj Obs Act) s :
  Forall (fun s => s_done s = false) p ->
  complete_episode (p ++ [s]) = s_done s.
Proof.
  induction 1 as [|s' p Hs' _ IH]; [done|].
  cbn [app complete_episode]. rewrite Hs', IH. cbn.
  by destruct (p ++ [s]) eqn:E; [destruct p|].
Qed.

Lemma total_len_app (ts1 ts2 : list (Traj Obs Act)) :
  total_len (ts1 ++ ts2) = total_len ts1 + total_len ts2.
Proof. unfold total_len. by rewrite concat_app, length_app. Qed.

Lemma total_len_cons (t : Traj Obs Act) ts :
  total_len (t :: ts) = length t + total_len ts.
Proof. unfold total_len. cbn. by rewrite length_app. Qed.

Section invariant.

Variable fresh : Obs -> Prop.

Lemma next_slot_ok stop sl a r :
  slot_ok fresh sl -> fresh_after_done fresh r -> slot_ok fresh (next_slot stop sl a r).
Proof.
  intros [Hnd Hst] Hr. unfold next_slot, slot_ok.
  destruct (sl_active sl); [|done].
  destruct (i_done r) eqn:Hd; cbn.
  - split; [done|]. destruct stop; cbn; [done|]. by apply Hr.
  - split.
    + apply Forall_app. split; [done|]. by apply Forall_singleton.
    + by destruct (sl_partial sl).
Qed.

Lemma completed_ok sl a r t :
  slot_ok fresh sl -> completed sl a r = Some t -> traj_ok fresh t.
Proof.
  intros [Hnd Hst]. unfold completed.
  destruct (sl_active sl); [|done]. destruct (i_done r) eqn:Hd; [|done].
  cbn. intros [= <-]. split.
  - by rewrite complete_episode_snoc.
  - by destruct (sl_partial sl).
Qed.

(** Every step an active instance takes is accounted for, in the episode
    in flight or in the trajectory just completed. *)
Lemma step_accounting stop sl a r :
  slot_ok fresh sl ->
  length (match completed sl a r with Some t => t | None => [] end)
    + length (sl_partial (next_slot stop sl a r))
  = length (sl_partial sl) + (if sl_active sl then 1 else 0).
Proof.
  intros [_ Hst]. unfold completed, next_slot.
  destruct (sl_active sl); [|by rewrite Hst].
  destruct (i_done r); cbn; rewrite ?length_app; cbn; lia.
Qed.

Lemma count_active_cons sl sls :
  count_active (sl :: sls) = (if sl_active sl then 1 else 0) + count_active sls.
Proof.
  unfold count_active. rewrite filter_cons.
  destruct (decide (sl_active sl = true)) as [->|H]; [done|].
  by destruct (sl_active sl).
Qed.

Lemma advance_slots stop sls acts res z :
  zip3 sls acts res = Some z ->
  Forall (slot_ok fresh) sls -> Forall (fresh_after_done fresh) res ->
  Forall (slot_ok fresh) (map (fun '(sl, a, r) => next_slot stop sl a r) z) /\
  Forall (traj_ok fresh) (omap (fun '(sl, a, r) => completed sl a r) z) /\
  total_len (omap (fun '(sl, a, r) => completed sl a r) z)
    + total_len (map sl_partial
                   (map (fun '(sl, a, r) => next_slot stop sl a r) z))
  = total_len (map sl_partial sls) + count_active sls.
Proof.
  intros Hz. pattern sls, acts, res, z. revert sls acts res z Hz.
  apply zip3_ind.
  - by intros _ _.
  - intros sl a r sls acts res z _ IH [Hsl Hsls]%Forall_cons [Hr Hres]%Forall_cons.
    destruct (IH Hsls Hres) as (IH1 & IH2 & IH3).
    pose proof (step_accounting stop sl a r Hsl) as Hacc.
    cbn -[total_len count_active next_slot completed].
    rewrite count_active_cons, !total_len_cons.
    split; [constructor; [by apply next_slot_ok|done]|].
    destruct (completed sl a r) as [t|] eqn:Hc.
    + rewrite total_len_cons.
      split; [constructor; [by eapply completed_ok|done]|]. lia.
    + cbn [length] in Hacc. split; [done|]. lia.
Qed.

Lemma advance_inv su st acts res st' :
  rollout_inv fresh st -> Forall (fresh_after_done fresh) res ->
  advance su st acts res = Some st' -> rollout_inv fresh st'.
Proof.
  intros [Hs Ht Hn] Hres. unfold advance.
  destruct (zip3 (slots st) acts res) as [z|] eqn:Hz; [|done].
  cbn. intros [= <-].
  destruct (advance_slots
              (su (n_steps st + count_active (slots st))
                 (length (trajs st ++ omap (fun '(sl, a, r) => completed sl a r) z)))
              _ _ _ _ Hz Hs Hres) as (H1 & H2 & H3).
  split; cbn [slots trajs n_steps].
  - done.
  - apply Forall_app. done.
  - rewrite total_len_app. lia.
Qed.

Lemma retired_nothing_in_flight sls :
  Forall (slot_ok fresh) sls -> existsb sl_active sls = false ->
  total_len (map sl_partial sls) = 0.
Proof.
  induction 1 as [|sl sls [_ Hsl] _ IH]; [done|].
  cbn [existsb map]. rewrite total_len_cons.
  destruct (sl_active sl); [done|]. cbn. intros H. by rewrite Hsl, IH.
Qed.

Lemma initial_inv obs :
  Forall fresh obs ->
  rollout_inv (Act := Act) fresh
    (mkRollout (map (fun o => mkSlot o [] true) obs) [] 0).
Proof.
  intros Hobs. split; cbn [slots trajs n_steps].
  - apply Forall_map. eapply Forall_impl; [done|]. by intros o Ho.
  - done.
  - induction obs as [|o obs IH]; [done|].
    cbn [map]. rewrite total_len_cons. cbn. apply IH. by inversion Hobs.
Qed.

End invariant.

(** The loop rule: a property of the bookkeeping and the world that every
    step of the loop preserves holds when the loop returns, together with
    the exit condition. *)
Lemma rollout_loop_sound (P : Rollout Obs Act -> World Obs Act X -> Prop)
    policy venv su :
  (forall st w acts ev1 w1 res ev2 w2 st',
     P st w ->
     call CPredict (policy (map sl_obs (slots st))) w = (ev1, Val acts, w1) ->
     step venv acts w1 = (ev2, Val res, w2) ->
     advance su st acts res = Some st' ->
     P st' w2) ->
  forall fuel st w ev ts w',
    P st w ->
    rollout_loop fuel policy venv su st w = (ev, Val ts, w') ->
    exists st',
      P st' w' /\ ts = trajs st' /\
      su (n_steps st') (length (trajs st')) = true /\
      existsb sl_active (slots st') = false.
Proof.
  intros Hstep fuel. induction fuel as [|fuel IH]; intros st w ev ts w' HP.
  - cbn. destruct (su _ _ && negb _) eqn:Hc; [|done].
    intros [= <- <- <-]. apply andb_true_iff in Hc as [? ?%negb_true_iff].
    by exists st.
  - cbn [rollout_loop]. destruct (su _ _ && negb _) eqn:Hc.
    + intros [= <- <- <-]. apply andb_true_iff in Hc as [? ?%negb_true_iff].
      by exists st.
    + intros (ev1 & acts & w1 & ev' & H1 & Hrun & ->)%bind_Val_inv.
      apply bind_Val_inv in Hrun as (ev2 & res & w2 & ev'' & H2 & Hrun & ->).
      destruct (advance su st acts res) as [st'|] eqn:Hadv; [|done].
      eapply IH; [|done]. eauto.
Qed.

Lemma step_inv venv acts w ev res w' :
  step venv acts w = (ev, Val res, w') ->
  exists ev1 w1 ev2,
    step_async venv acts w = (ev1, Val tt, w1) /\
    step_wait venv w1 = (ev2, Val res, w') /\ ev = ev1 ++ ev2.
Proof.
  intros (ev1 & [] & w1 & ev2 & H1 & H2 & ->)%bind_Val_inv.
  by exists ev1, w1, ev2.
Qed.

(** What holds of the bookkeeping when the engine returns. *)
Lemma generate_trajectories_inv fresh fuel policy venv su w ev ts w' :
  (forall w ev obs w', reset venv w = (ev, Val obs, w') -> Forall fresh obs) ->
  (forall w ev res w',
     step_wait venv w = (ev, Val res, w') ->
     Forall (fresh_after_done fresh) res) ->
  generate_trajectories fuel policy venv su w = (ev, Val ts, w') ->
  Forall (traj_ok fresh) ts /\
  exists n, su n (length ts) = true /\ n = total_len ts.
Proof.
  intros Hreset Hstep.
  intros (ev1 & obs & w1 & ev2 & H1 & Hrun & ->)%bind_Val_inv.
  apply (rollout_loop_sound (fun st _ => rollout_inv fresh st)) in Hrun
    as (st & [Hs Ht Hn] & -> & Hsu & Hact).
  - split; [done|]. exists (n_steps st). split; [done|].
    rewrite Hn, (retired_nothing_in_flight fresh) by done. lia.
  - intros st w0 acts ev0 w2 res ev3 w3 st' Hinv _ Hstp Hadv.
    apply step_inv in Hstp as (? & ? & ? & _ & Hsw & _).
    eapply advance_inv; [exact Hinv|by eapply Hstep|exact Hadv].
  - apply initial_inv. eauto.
Qed.

(** C4.  Every trajectory the rollout engine returns is well formed: its
    first observation opens an episode (it is one that [reset] returned, or
    one that a step returned together with a done signal), its last step
    carries the done signal and no earlier step does.  No returned
    trajectory is cut short. *)
Theorem generate_trajectories_well_formed fresh fuel policy venv su w ev ts w' :
  (forall w ev obs w', reset venv w = (ev, Val obs, w') -> Forall fresh obs) ->
  (forall w ev res w',
     step_wait venv w = (ev, Val res, w') ->
     Forall (fun r => i_done r = true -> fresh (i_obs r)) res) ->
  generate_trajectories fuel policy venv su w = (ev, Val ts, w') ->
  Forall (well_formed fresh) ts.
Proof.
  intros Hreset Hstep Hrun.
  destruct (generate_trajectories_inv fresh _ _ _ _ _ _ _ _ Hreset Hstep Hrun)
    as [Hts _].
  eapply Forall_impl; [exact Hts|]. by intros t [? ?].
Qed.

End rollout_engine_facts.


(** ** The rollout loop ends *)

Section termination_facts.
Context {Obs Act Info X : Type}.
Implicit Types (venv : VecEnv Obs Act Info X) (w : World Obs Act X)
  (st : Rollout Obs Act) (policy : Policy Obs Act X) (su : SampleUntil)
  (sls : list (Slot Obs Act)) (res : StepResult Obs Info) (acts : list Act).

Lemma make_sample_until_progresses n_timesteps n_episodes su :
  make_sample_until n_timesteps n_episodes = Val su ->
  exists d, progresses su d /\
    forall B, n_timesteps = Some B \/ n_episodes = Some B ->
              d 0 0 = Z.to_nat B.
Proof.
  unfold make_sample_until.
  destruct n_timesteps as [t|], n_episodes as [k|]; intros [= <-].
  - exists (fun n _ => Z.to_nat (t - Z.of_nat n)). split.
    + repeat split; intros.
      * apply Z.leb_le in H. lia.
      * apply Z.leb_le. lia.
      * lia.
      * lia.
    + intros B [[= <-]|[=]]. lia.
  - exists (fun _ e => Z.to_nat (k - Z.of_nat e)). split.
    + repeat split; intros.
      * apply Z.leb_le in H. lia.
      * apply Z.leb_le. lia.
      * lia.
      * lia.
    + intros B [[=]|[= <-]]. lia.
Qed.

Lemma zip3_Some sls acts res :
  length acts = length sls -> length res = length sls ->
  exists z, zip3 sls acts res = Some z.
Proof.
  revert acts res. induction sls as [|sl sls IH]; intros [|a acts] [|r res];
    cbn; try done.
  - by exists [].
  - intros [= Ha] [= Hr]. destruct (IH _ _ Ha Hr) as [z ->]. by eexists.
Qed.

Lemma in_flight_bound L sls ks :
  Forall (fun k => 1 <= k <= L) ks -> in_flight sls ks <= L.
Proof.
  intros Hks. revert sls. induction Hks as [|k ks Hk _ IH]; intros [|sl sls];
    cbn; try lia.
  specialize (IH sls). destruct (sl_active sl); lia.
Qed.

Lemma in_flight_pos sls ks :
  length sls = length ks -> Forall (fun k => 1 <= k) ks ->
  existsb sl_active sls = true -> 1 <= in_flight sls ks.
Proof.
  intros Hlen Hks. revert sls Hlen.
  induction Hks as [|k ks Hk _ IH]; intros [|sl sls]; cbn; try done.
  intros [= Hlen]. destruct (sl_active sl); cbn; [lia|].
  intros H. specialize (IH _ Hlen H). lia.
Qed.

(** The potential after one step of the bookkeeping. *)
Lemma advance_in_flight L stop sls acts res z ks ks' :
  zip3 sls acts res = Some z ->
  Forall3 (step_rel L) ks res ks' ->
  let sls' := map (fun '(sl, a, r) => next_slot stop sl a r) z in
  let done_now := omap (fun '(sl, a, r) => completed sl a r) z in
  length sls' = length ks' /\
  in_flight sls' ks' <= L /\
  (done_now = [] \/ stop = true ->
   in_flight sls' ks' <= pred (in_flight sls ks)) /\
  (stop = false -> Forall (fun sl => sl_active sl = true) sls ->
   Forall (fun sl => sl_active sl = true) sls').
Proof.
  intros Hz. revert ks ks'. pattern sls, acts, res, z.
  revert sls acts res z Hz. apply zip3_ind.
  - intros ks ks' H. inversion H; subst. cbn. repeat split; try lia; done.
  - intros sl a r sls acts res z _ IH ks ks' H.
    inversion H as [|k r0 k' ks0 res0 ks0' (Hd & Hk' & Hk) Hrest]; subst.
    destruct (IH _ _ Hrest) as (IH1 & IH2 & IH3 & IH4). clear IH.
    set (f := fun '(sl, a, r) => next_slot stop sl a r) in *.
    set (g := fun '(sl, a, r) => completed sl a r) in *.
    change (map f ((sl, a, r) :: z)) with (next_slot stop sl a r :: map f z).
    change (omap g ((sl, a, r) :: z))
      with (match completed sl a r with
            | Some t => t :: omap g z
            | None => omap g z
            end).
    unfold next_slot, completed. rewrite Hd.
    destruct (sl_active sl) eqn:Hact, (Nat.eqb_spec k 1) as [->|Hk1];
      cbn [andb sl_active length in_flight]; rewrite ?Hact.
    + (* an active instance completes its episode *)
      split; [by rewrite IH1|]. split; [destruct stop; cbn; lia|].
      split.
      * intros [?|Hs]; [done|]. rewrite Hs. cbn.
        specialize (IH3 (or_intror Hs)). lia.
      * intros Hs [_ Hall]%Forall_cons.
        constructor; [cbn; by rewrite Hs|by apply IH4].
    + (* an active instance goes on *)
      split; [by rewrite IH1|]. split; [lia|]. split.
      * intros Hc. specialize (IH3 Hc). specialize (Hk Hk1). lia.
      * intros Hs [_ Hall]%Forall_cons. constructor; [done|]. by apply IH4.
    + split; [by rewrite IH1|]. split; [lia|]. split.
      * intros Hc. specialize (IH3 Hc). lia.
      * intros _ [Hsl _]%Forall_cons. congruence.
    + split; [by rewrite IH1|]. split; [lia|]. split.
      * intros Hc. specialize (IH3 Hc). lia.
      * intros _ [Hsl _]%Forall_cons. congruence.
Qed.


Lemma all_active_count sls :
  Forall (fun sl => sl_active sl = true) sls ->
  count_active sls = length sls /\
  (sls <> [] -> existsb sl_active sls = true).
Proof.
  unfold count_active. induction 1 as [|sl sls Hsl _ [IH1 IH2]]; [done|].
  rewrite filter_cons_True by done. cbn. rewrite IH1, Hsl. done.
Qed.

Lemma Forall3_length_eq {A B C} (P : A -> B -> C -> Prop) l1 l2 l3 :
  Forall3 P l1 l2 l3 -> length l2 = length l1 /\ length l3 = length l1.
Proof. induction 1; cbn; lia. Qed.

(** With episodes of at most [L] steps the loop returns: the distance to the
    stopping condition, weighted by [L + 1], plus the time the episodes in
    flight still take, bounds the number of steps. *)
Lemma rollout_loop_returns venv policy L Start Good rem su d fuel st w :
  bounded_episodes venv policy L Start Good rem ->
  progresses su d ->
  term_inv d Good rem st w ->
  (L + 1) * d (n_steps st) (length (trajs st)) + in_flight (slots st) (rem w)
    <= fuel ->
  exists ev ts w',
    rollout_loop fuel policy venv su st w = (ev, Val ts, w') /\ Good w'.
Proof.
  intros HB (Hsu & Hmono & Hstrict).
  revert st w. induction fuel as [|fuel IH]; intros st w (HG & Hlen & Hact) HP.
  - assert (d (n_steps st) (length (trajs st)) = 0) as Hd by nia.
    assert (in_flight (slots st) (rem w) = 0) as Hf by lia.
    apply Hsu in Hd. cbn. rewrite Hd.
    destruct (existsb sl_active (slots st)) eqn:Hex; [|by eexists _, _, _].
    destruct (be_rem _ _ _ _ _ _ HB w HG) as [_ Hks].
    assert (1 <= in_flight (slots st) (rem w)); [|lia].
    apply in_flight_pos; [done| |done].
    eapply Forall_impl; [exact Hks|]. cbn. lia.
  - cbn [rollout_loop].
    destruct (su (n_steps st) (length (trajs st))
              && negb (existsb sl_active (slots st))) eqn:Hcond;
      [by eexists _, _, _|].
    destruct (be_rem _ _ _ _ _ _ HB w HG) as [Hne Hks].
    destruct (be_policy _ _ _ _ _ _ HB w (map sl_obs (slots st)) HG)
      as (ev1 & acts & w1 & Hpol & HG1 & Hrem1 & Hacts);
      [by rewrite length_map|].
    rewrite length_map in Hacts.
    destruct (be_step _ _ _ _ _ _ HB w1 acts HG1)
      as (ev2 & res & w2 & Hstep & HG2 & Hrel & _); [congruence|].
    rewrite Hrem1 in Hrel.
    destruct (Forall3_length_eq _ _ _ _ Hrel) as [Hres _].
    destruct (zip3_Some (slots st) acts res) as [z Hz]; [done|congruence|].
    rewrite (bind_Val _ _ _ _ _ _ Hpol), (bind_Val _ _ _ _ _ _ Hstep).
    unfold advance. rewrite Hz. cbn [mbind option_bind].
    set (n' := n_steps st + count_active (slots st)).
    set (done_now := omap (fun '(sl, a, r) => completed sl a r) z).
    set (stop := su n' (length (trajs st ++ done_now))).
    destruct (advance_in_flight L stop _ _ _ _ _ _ Hz Hrel)
      as (A1 & A2 & A3 & A4).
    fold done_now in A3.
    set (st' := mkRollout _ _ _).
    assert (d n' (length (trajs st ++ done_now))
            <= d (n_steps st) (length (trajs st))) as Hle
      by (rewrite length_app; apply Hmono).
    destruct (IH st' w2) as (ev3 & ts & w3 & Hrun & HG3).
    + split; [done|]. split; [done|]. cbn. intros Hpos.
      apply A4; [|apply Hact; fold n' in Hle; lia].
      destruct stop eqn:Hs; [|done]. apply Hsu in Hs. fold n' in Hs. lia.
    + cbn [slots trajs n_steps st'].
      destruct (Nat.eq_dec (d (n_steps st) (length (trajs st))) 0) as [Hd|Hd].
      * assert (stop = true) as Hs by (apply Hsu; lia).
        specialize (A3 (or_intror Hs)).
        apply Hsu in Hd. rewrite Hd in Hcond. cbn in Hcond.
        apply negb_false_iff in Hcond.
        assert (1 <= in_flight (slots st) (rem w)).
        { apply in_flight_pos; [done| |done].
          eapply Forall_impl; [exact Hks|]. cbn. lia. }
        nia.
      * destruct (all_active_count (slots st)) as [Hc Hex]; [apply Hact; lia|].
        assert (slots st <> []) as Hne' by (intros E; rewrite E in Hlen;
          destruct (rem w); done).
        assert (1 <= in_flight (slots st) (rem w)).
        { apply in_flight_pos; [done| |by apply Hex].
          eapply Forall_impl; [exact Hks|]. cbn. lia. }
        destruct done_now as [|t ts'] eqn:Hdn.
        -- specialize (A3 (or_introl eq_refl)). nia.
        -- assert (d n' (length (trajs st ++ t :: ts'))
                   < d (n_steps st) (length (trajs st))) as Hlt.
           { rewrite length_app. apply Hstrict; [|cbn; lia|lia].
             rewrite Hc. destruct (slots st); [done|cbn; lia]. }
           nia.
    + rewrite Hrun. by eexists _, _, _.
Qed.

(** The rollout engine returns when given enough fuel. *)
Theorem generate_trajectories_returns venv policy L Start Good rem su d fuel w :
  bounded_episodes venv policy L Start Good rem ->
  progresses su d ->
  Start w ->
  (L + 1) * (d 0 0 + 1) <= fuel ->
  exists ev ts w',
    generate_trajectories fuel policy venv su w = (ev, Val ts, w') /\ Good w'.
Proof.
  intros HB Hsu Hw Hfuel.
  destruct (be_reset _ _ _ _ _ _ HB w Hw) as (ev & obs & w1 & Hreset & HG & Hlen).
  unfold generate_trajectories. rewrite (bind_Val _ _ _ _ _ _ Hreset).
  destruct (be_rem _ _ _ _ _ _ HB w1 HG) as [_ Hks].
  edestruct (rollout_loop_returns venv policy L Start Good rem su d fuel
               (mkRollout (map (fun o => mkSlot o [] true) obs) [] 0) w1)
    as (ev' & ts & w2 & Hrun & HG2); [done|done| | |].
  - split; [done|]. split; [cbn; by rewrite length_map|]. intros _. cbn.
    apply Forall_map. by apply Forall_true.
  - cbn [slots trajs n_steps length].
    pose proof (in_flight_bound L (map (fun o => mkSlot o [] true) obs)
                  (rem w1) Hks). nia.
  - rewrite Hrun. by eexists _, _, _.
Qed.

(** With a budget of [B] timesteps or episodes, [(L + 1) * (B + 1)] steps
    are enough. *)
Corollary generate_trajectories_returns_within venv policy L Start Good rem
    n_timesteps n_episodes su B fuel w :
  bounded_episodes venv policy L Start Good rem ->
  make_sample_until n_timesteps n_episodes = Val su ->
  n_timesteps = Some B \/ n_episodes = Some B ->
  Start w ->
  (L + 1) * (Z.to_nat B + 1) <= fuel ->
  exists ev ts w',
    generate_trajectories fuel policy venv su w = (ev, Val ts, w') /\ Good w'.
Proof.
  intros HB Hsu HBud Hw Hfuel.
  destruct (make_sample_until_progresses _ _ _ Hsu) as (d & Hd & Hd0).
  eapply generate_trajectories_returns; [exact HB|exact Hd|exact Hw|].
  by rewrite (Hd0 B HBud).
Qed.

End termination_facts.


(** ** The reward override wrapper *)

Section reward_wrapper_facts.
Context {Obs Act Info X : Type}.
Implicit Types (venv : VecEnv Obs Act Info X) (w : World Obs Act X)
  (reward_fn : RewardFn Obs Act) (res : StepResult Obs Info).

Lemma runs_outside_heap {A} (m : M Obs Act X A) w ev r w' :
  runs_outside m -> m w = (ev, r, w') -> heap w' = heap w.
Proof. destruct w as [x h]. intros Hm H. by apply Hm in H as [-> _]. Qed.

Lemma runs_outside_bind {A B} (m : M Obs Act X A) (k : A -> M Obs Act X B) :
  runs_outside m -> (forall a, runs_outside (k a)) ->
  runs_outside (bind m k).
Proof.
  intros Hm Hk x h ev r w'. rewrite bind_run.
  destruct (m (mkWorld x h)) as [[ev1 r1] [x1 h1]] eqn:H1.
  destruct (Hm _ _ _ _ _ H1) as [Hh H1']. cbn in Hh, H1'. subst h1.
  destruct r1 as [a| |].
  - destruct (k a (mkWorld x1 h)) as [[ev2 r2] w2] eqn:H2.
    destruct (Hk a _ _ _ _ _ H2) as [Hh H2'].
    intros [= <- <- <-]. split; [done|]. intros h'.
    by rewrite bind_run, H1', H2'.
  - intros [= <- <- <-]. split; [done|]. intros h'. by rewrite bind_run, H1'.
  - intros [= <- <- <-]. split; [done|]. intros h'. by rewrite bind_run, H1'.
Qed.

Lemma runs_outside_sub {A} c (m : M Obs Act X A) :
  runs_outside m -> runs_outside (sub c m).
Proof.
  intros Hm x h ev r w' (ev0 & H & ->)%sub_inv.
  destruct (Hm _ _ _ _ _ H) as [Hh H']. split; [done|].
  intros h'. by rewrite sub_run, H'.
Qed.

Lemma runs_outside_lift_ext {A} (f : Ext X A) :
  runs_outside (lift_ext f : M Obs Act X A).
Proof.
  intros x h ev r w'. unfold lift_ext. cbn. destruct (f x).
  by intros [= <- <- <-].
Qed.

Lemma runs_outside_call {A} c (f : Ext X A) :
  runs_outside (call c f : M Obs Act X A).
Proof. apply runs_outside_sub, runs_outside_lift_ext. Qed.

Lemma runs_outside_ret {A} (a : A) : runs_outside (ret a : M Obs Act X A).
Proof. by intros x h ev r w' [= <- <- <-]. Qed.

Lemma of_base_outside (b : BaseEnv Obs Act Info X) : venv_outside (of_base b).
Proof.
  split; [|split; [intros acts|split]]; apply runs_outside_lift_ext.
Qed.

Lemma InteractiveRender_outside venv fps :
  venv_outside venv -> venv_outside (InteractiveRender venv fps).
Proof.
  intros (Hr & Ha & Hw & Hd).
  split; [|split; [intros acts|split]];
    cbn [InteractiveRender m_reset m_step_async m_step_wait m_render];
    repeat first
      [ apply runs_outside_bind; [|intros ?]
      | apply runs_outside_sub
      | apply runs_outside_ret
      | done ].
  intros x h ev r w'. rewrite frame_cap_run. intros [= <- <- <-].
  split; [done|]. intros h'. by rewrite frame_cap_run.
Qed.

Lemma wrap_render_outside cfg venv :
  venv_outside venv -> venv_outside (wrap_render cfg venv).
Proof.
  unfold wrap_render. destruct (render_flag cfg); [|done].
  apply InteractiveRender_outside.
Qed.

Lemma read_inv l w ev c w' :
  read l w = (ev, Val c, w') -> heap w !! l = Some c /\ w' = w /\ ev = [].
Proof. unfold read. destruct (heap w !! l); [|done]. by intros [= <- <- <-]. Qed.

Lemma RewardVecEnvWrapper_inv venv reward_fn w ev venv' w' :
  RewardVecEnvWrapper venv reward_fn w = (ev, Val venv', w') ->
  venv' = RewardVecEnvWrapper_methods venv reward_fn (length (heap w)) /\
  heap w' = heap w ++ [mkCell None None].
Proof. by intros [= <- <- <-]. Qed.

Lemma wrapper_reset_inv venv reward_fn self w ev obs w' :
  reset (RewardVecEnvWrapper_methods venv reward_fn self) w = (ev, Val obs, w') ->
  exists ev0 w0 c,
    reset venv w = (ev0, Val obs, w0) /\
    heap w0 !! self = Some c /\
    w' = mkWorld (ext w0) (<[self := mkCell (Some obs) (actions c)]> (heap w0)) /\
    ev = [EvCall CReset ev0 Returned].
Proof.
  intros (ev1 & Hrun & ->)%sub_inv. cbn in Hrun.
  apply bind_Val_inv in Hrun as (ev0 & obs' & w0 & ev2 & H0 & Hrun & ->).
  apply bind_Val_inv in Hrun as (? & c & ? & ev3 & (Hc & -> & ->)%read_inv & Hrun & ->).
  injection Hrun as <- <- <-.
  exists ev0, w0, c. by rewrite app_nil_r.
Qed.

Lemma wrapper_step_async_inv venv reward_fn self acts w ev w' :
  step_async (RewardVecEnvWrapper_methods venv reward_fn self) acts w
    = (ev, Val tt, w') ->
  exists c ev0,
    heap w !! self = Some c /\
    step_async venv acts
      (mkWorld (ext w) (<[self := mkCell (old_obs c) (Some acts)]> (heap w)))
      = (ev0, Val tt, w') /\
    ev = [EvCall CStepAsync ev0 Returned].
Proof.
  intros (ev1 & Hrun & ->)%sub_inv. cbn in Hrun.
  apply bind_Val_inv in Hrun as (? & c & ? & ev3 & (Hc & -> & ->)%read_inv & Hrun & ->).
  apply bind_Val_inv in Hrun as (? & [] & ? & ev4 & [= <- <-] & Hrun & ->).
  by exists c, ev4.
Qed.

Lemma wrapper_step_wait_inv venv reward_fn self w ev res' w' :
  step_wait (RewardVecEnvWrapper_methods venv reward_fn self) w
    = (ev, Val res', w') ->
  exists ev0 res w0 c obs acts,
    step_wait venv w = (ev0, Val res, w0) /\
    heap w0 !! self = Some c /\
    old_obs c = Some obs /\ actions c = Some acts /\
    relabel reward_fn obs acts res = Some res' /\
    w' = mkWorld (ext w0)
           (<[self := mkCell (Some (map i_obs res)) (Some acts)]> (heap w0)) /\
    ev = [EvCall CStepWait ev0 Returned].
Proof.
  intros (ev1 & Hrun & ->)%sub_inv. cbn in Hrun.
  apply bind_Val_inv in Hrun as (ev0 & res & w0 & ev2 & H0 & Hrun & ->).
  apply bind_Val_inv in Hrun as (? & c & ? & ev3 & (Hc & -> & ->)%read_inv & Hrun & ->).
  destruct (mapM next_state res); [|done].
  destruct (old_obs c) as [obs|] eqn:Ho; [|done].
  destruct (actions c) as [acts|] eqn:Ha; [|done].
  destruct (relabel reward_fn obs acts res) as [res''|] eqn:Hr; [|done].
  injection Hrun as <- <- <-.
  exists ev0, res, w0, c, obs, acts. by rewrite app_nil_r.
Qed.

(** What [relabel] returns, instance by instance. *)
Lemma relabel_spec (reward_fn : RewardFn Obs Act) obs acts
    (res res' : StepResult Obs Info) :
  relabel reward_fn obs acts res = Some res' ->
  length res' = length res /\
  forall i o a r r',
    obs !! i = Some o -> acts !! i = Some a ->
    res !! i = Some r -> res' !! i = Some r' ->
    i_obs r' = i_obs r /\ i_done r' = i_done r /\
    exists o',
      (if i_done r then i_terminal r else Some (i_obs r)) = Some o' /\
      i_rew r' = reward_fn o a o'.
Proof.
  revert acts res res'.
  induction obs as [|o0 obs IH]; intros [|a0 acts] [|r0 res] res'; cbn;
    try done.
  - by intros [= <-].
  - destruct (next_state r0) as [o0'|] eqn:Hnext; cbn; [|done].
    destruct (relabel _ _ _ _) as [rest|] eqn:Hrel; cbn; [|done].
    intros [= <-]. destruct (IH _ _ _ Hrel) as [Hlen Hrest].
    split; [cbn; by rewrite Hlen|].
    intros [|i] o a r r'; cbn.
    + intros [= <-] [= <-] [= <-] [= <-]. cbn. by eauto.
    + apply Hrest.
Qed.

(** *** The rollout on the wrapped environment, step for step against the
    rollout on the environment it wraps *)

Section simulation.

Variable reward_fn : RewardFn Obs Act.
Variable terminal : Obs -> Prop.
Implicit Types (r : InstStep Obs Info)
  (z : list (Slot Obs Act * Act * InstStep Obs Info)).

Lemma rewards_match_snoc (p : Traj Obs Act) o s o' :
  rewards_match reward_fn p o ->
  s_obs s = o -> s_rew s = reward_fn o (s_act s) o' ->
  rewards_match reward_fn (p ++ [s]) o'.
Proof.
  intros Hp Ho Hr. induction p as [|s1 p IH]; cbn.
  - by rewrite Ho.
  - destruct Hp as [H1 Hp]. split; [|by apply IH].
    rewrite H1. destruct p; by cbn; rewrite ?Ho.
Qed.

Lemma relabel_zip3_sim sls0 sls acts res (res' : StepResult Obs Info) z :
  Forall2 (slot_sim reward_fn) sls0 sls ->
  Forall (terminal_ok terminal) res ->
  relabel reward_fn (map sl_obs sls) acts res = Some res' ->
  zip3 sls acts res' = Some z ->
  exists z0, zip3 sls0 acts res = Some z0 /\
             Forall2 (zipped_sim reward_fn terminal) z0 z.
Proof.
  intros Hs. revert acts res res' z.
  induction Hs as [|sl0 sl sls0 sls Hsl _ IH]; intros acts res res' z Ht.
  - destruct acts, res; cbn; try done. intros [= <-] [= <-]. by exists [].
  - destruct acts as [|a acts], res as [|r res]; cbn; try done.
    apply Forall_cons in Ht as [Hr Ht].
    destruct (next_state r) as [o'|] eqn:Hnext; cbn; [|done].
    destruct (relabel _ _ _ _) as [rest|] eqn:Hrel; cbn; [|done].
    intros [= <-]. cbn.
    destruct (zip3 sls acts rest) as [z'|] eqn:Hz; cbn; [|done].
    intros [= <-].
    destruct (IH _ _ _ _ Ht Hrel Hz) as (z0 & -> & Hz0). cbn.
    eexists. split; [done|]. constructor; [|done].
    split; [done|]. split; [done|]. split; [done|]. split; [done|].
    exists o'. split; [done|]. split; [done|]. cbn.
    intros Hd. apply Hr; [done|]. unfold next_state in Hnext.
    by rewrite Hd in Hnext.
Qed.

Lemma next_slot_sim stop sl0 sl a r r' :
  slot_sim reward_fn sl0 sl -> inst_sim reward_fn terminal sl a r r' ->
  slot_sim reward_fn (next_slot stop sl0 a r) (next_slot stop sl a r').
Proof.
  intros (Ho & Ha & Hp & Hm) (Hro & Hrd & o' & Hnext & Hrr & _).
  unfold next_slot.
  rewrite Ha, Hrd. unfold slot_sim.
  destruct (sl_active sl), (i_done r) eqn:Hd;
    cbn [sl_obs sl_partial sl_active]; rewrite ?Hro; try done.
  split; [done|]. split; [done|]. split.
  - unfold same_but_rewards in *. rewrite !map_app, Hp. cbn.
    unfold erase, new_step. cbn. by rewrite Ho, Hrd, Hd.
  - apply rewards_match_snoc with (o := sl_obs sl); [done..|].
    cbn. rewrite Hrr. unfold next_state in Hnext. rewrite Hd in Hnext.
    by injection Hnext as <-.
Qed.

Lemma completed_sim sl0 sl a r r' :
  slot_sim reward_fn sl0 sl -> inst_sim reward_fn terminal sl a r r' ->
  option_Forall2 (traj_sim reward_fn terminal)
    (completed sl0 a r) (completed sl a r').
Proof.
  intros (Ho & Ha & Hp & Hm) (Hro & Hrd & o' & Hnext & Hrr & Hterm).
  unfold completed.
  rewrite Ha, Hrd. destruct (sl_active sl && i_done r) eqn:Hc; constructor.
  apply andb_true_iff in Hc as [_ Hd].
  split.
  - unfold same_but_rewards in *. rewrite !map_app, Hp. cbn.
    unfold erase, new_step. cbn. by rewrite Ho, Hrd.
  - exists o'. split; [by apply Hterm|].
    apply rewards_match_snoc with (o := sl_obs sl); [done..|].
    cbn. done.
Qed.

Lemma zipped_sim_advance stop z0 z :
  Forall2 (zipped_sim reward_fn terminal) z0 z ->
  Forall2 (slot_sim reward_fn) (map (fun '(sl, a, r) => next_slot stop sl a r) z0)
    (map (fun '(sl, a, r) => next_slot stop sl a r) z) /\
  Forall2 (traj_sim reward_fn terminal)
    (omap (fun '(sl, a, r) => completed sl a r) z0)
    (omap (fun '(sl, a, r) => completed sl a r) z).
Proof.
  induction 1 as [|[[sl0 a0] r] [[sl a] r'] z0 z (-> & Hsl & Hr) _ [IH1 IH2]];
    [done|].
  cbn -[next_slot completed]. split.
  - constructor; [by apply next_slot_sim|done].
  - destruct (completed_sim _ _ a _ _ Hsl Hr); [|done]. by constructor.
Qed.

Lemma slot_sim_active sls0 sls :
  Forall2 (slot_sim reward_fn) sls0 sls ->
  map sl_obs sls0 = map sl_obs sls /\
  count_active sls0 = count_active sls /\
  existsb sl_active sls0 = existsb sl_active sls.
Proof.
  induction 1 as [|sl0 sl sls0 sls (Ho & Ha & _) _ (IH1 & IH2 & IH3)]; [done|].
  cbn [map existsb]. rewrite !count_active_cons, Ho, Ha, IH1, IH2, IH3. done.
Qed.

Lemma relabel_obs obs acts (res res' : StepResult Obs Info) :
  relabel reward_fn obs acts res = Some res' ->
  map i_obs res' = map i_obs res.
Proof.
  revert acts res res'. induction obs as [|o obs IH]; intros [|a acts] [|r res] res';
    cbn; try done.
  - by intros [= <-].
  - destruct (next_state r); cbn; [|done].
    destruct (relabel _ _ _ _) as [rest|] eqn:Hrel; cbn; [|done].
    intros [= <-]. cbn. f_equal. eauto.
Qed.

Lemma next_slot_obs stop (sls : list (Slot Obs Act)) acts
    (res : StepResult Obs Info) z :
  zip3 sls acts res = Some z ->
  map sl_obs (map (fun '(sl, a, r) => next_slot stop sl a r) z)
  = map i_obs res.
Proof.
  intros Hz. pattern sls, acts, res, z. revert sls acts res z Hz.
  apply zip3_ind; [done|].
  intros sl a r sls acts res z _ IH. cbn -[next_slot]. f_equal; [|done].
  unfold next_slot. by destruct (sl_active sl), (i_done r).
Qed.

Lemma advance_sim su st0 st acts (res res' : StepResult Obs Info) st' :
  rollout_sim reward_fn terminal st0 st ->
  Forall (terminal_ok terminal) res ->
  relabel reward_fn (map sl_obs (slots st)) acts res = Some res' ->
  advance su st acts res' = Some st' ->
  exists st0',
    advance su st0 acts res = Some st0' /\
    rollout_sim reward_fn terminal st0' st' /\
    map sl_obs (slots st') = map i_obs res.
Proof.
  intros (Hs & Ht & Hn) Hterm Hrel. unfold advance.
  destruct (zip3 (slots st) acts res') as [z|] eqn:Hz; [|done].
  cbn. intros [= <-].
  destruct (relabel_zip3_sim _ _ _ _ _ _ Hs Hterm Hrel Hz) as (z0 & -> & Hzz).
  cbn.
  destruct (slot_sim_active _ _ Hs) as (_ & Hca & _).
  eexists. split; [done|].
  set (stop := su _ _). set (stop0 := su _ _).
  assert (stop0 = stop) as ->.
  { unfold stop0, stop. rewrite Hn, Hca, !length_app.
    destruct (zipped_sim_advance true _ _ Hzz) as [_ Hc].
    by rewrite (Forall2_length _ _ _ Ht), (Forall2_length _ _ _ Hc). }
  destruct (zipped_sim_advance stop _ _ Hzz) as [H1 H2].
  split; [split; cbn [slots trajs n_steps]|].
  - done.
  - split; [by apply Forall2_app|]. by rewrite Hn, Hca.
  - cbn [slots]. rewrite (next_slot_obs _ _ _ _ _ Hz). by eapply relabel_obs.
Qed.

Lemma rollout_loop_sim policy venv self su :
  venv_outside venv ->
  (forall w ev res w',
     step_wait venv w = (ev, Val res, w') ->
     Forall (terminal_ok terminal) res) ->
  forall fuel st0 st w ev ts w' h0,
    rollout_sim reward_fn terminal st0 st -> fields_ok self st w ->
    rollout_loop fuel policy (RewardVecEnvWrapper_methods venv reward_fn self)
      su st w = (ev, Val ts, w') ->
    exists ev0 ts0,
      rollout_loop fuel policy venv su st0 (mkWorld (ext w) h0)
        = (ev0, Val ts0, mkWorld (ext w') h0) /\
      Forall2 (traj_sim reward_fn terminal) ts0 ts.
Proof.
  intros (_ & Hasync & Hwait & _) Hterm fuel.
  induction fuel as [|fuel IH]; intros st0 st w ev ts w' h0 Hsim Hf;
    pose proof Hsim as (Hs & Ht & Hn);
    destruct (slot_sim_active _ _ Hs) as (Hobs & _ & Hex);
    cbn [rollout_loop]; rewrite Hn, Hex, (Forall2_length _ _ _ Ht);
    destruct (su _ _ && negb _) eqn:Hc.
  - intros [= <- <- <-]. by exists [], (trajs st0).
  - done.
  - intros [= <- <- <-]. by exists [], (trajs st0).
  - intros (ev1 & acts & w1 & ev' & H1 & Hrun & ->)%bind_Val_inv.
    apply bind_Val_inv in Hrun as (ev2 & res' & w2 & ev'' & H2 & Hrun & ->).
    destruct (advance su st acts res') as [st'|] eqn:Hadv; [|done].
    (* the policy *)
    destruct w as [x h]. cbn [ext].
    destruct (runs_outside_call CPredict (policy (map sl_obs (slots st)))
                _ _ _ _ _ H1) as [Hh1 H1'].
    (* the step *)
    apply step_inv in H2 as (ea & wa & ew & Ha & Hw & ->).
    apply wrapper_step_async_inv in Ha as (c & ea0 & Hc1 & Ha & ->).
    destruct (runs_outside_sub CStepAsync _ (Hasync acts) _ _ _ _ _ Ha)
      as [Hha Ha'].
    apply wrapper_step_wait_inv in Hw
      as (ew0 & res & w0 & c' & obs & acts' & Hw & Hc' & Ho & Hacts & Hrel & -> & ->).
    destruct wa as [xa ha]. cbn [ext heap] in *.
    destruct (runs_outside_sub CStepWait _ Hwait _ _ _ _ _ Hw) as [Hhw Hw'].
    (* the fields of the wrapper *)
    destruct Hf as (cw & Hcw & Hold). cbn [heap] in Hcw.
    rewrite Hh1 in Hc1. assert (c = cw) as -> by congruence.
    rewrite Hhw, Hha, Hh1, list_lookup_insert_eq in Hc'
      by by eapply lookup_lt_Some.
    injection Hc' as <-. cbn [old_obs actions] in Ho, Hacts.
    assert (obs = map sl_obs (slots st)) as -> by congruence.
    injection Hacts as <-.
    destruct (advance_sim _ _ _ _ _ _ _ Hsim (Hterm _ _ _ _ Hw) Hrel Hadv)
      as (st0' & Hadv0 & Hsim' & Hobs').
    (* the rest of the loop *)
    edestruct (IH st0' st') with (h0 := h0) as (ev0 & ts0 & Hloop & Hts);
      [exact Hsim'| |exact Hrun|].
    { eexists. split.
      - cbn [heap]. apply list_lookup_insert_eq.
        rewrite Hhw, Hha, length_insert, Hh1. by eapply lookup_lt_Some.
      - cbn [old_obs]. by rewrite Hobs'. }
    cbn [ext] in Hloop.
    eexists _, ts0. split; [|done].
    rewrite Hobs. erewrite bind_Val by apply H1'.
    unfold step, step_async, step_wait. erewrite (bind_Val (bind _ _)).
    2:{ erewrite bind_Val by apply Ha'. cbn [ext]. rewrite Hw'. reflexivity. }
    rewrite Hadv0, Hloop. reflexivity.
Qed.

End simulation.

End reward_wrapper_facts.

(** ** The script returns *)

Section cooperation_facts.

Context {Obs Act Info X : Type}.
Variables (L : nat) (Inv Good : X -> Prop) (rem : X -> list nat).
Implicit Types (venv : VecEnv Obs Act Info X) (w : World Obs Act X)
  (policy : Policy Obs Act X) (b : BaseEnv Obs Act Info X)
  (I : Imports Obs Act Info X) (c : Config).


Ltac run_py :=
  repeat progress
    (unfold reset, step, step_async, step_wait, render, call, sub, lift_ext,
       bind, ret, read, write, on_ext;
     cbn [m_reset m_step_async m_step_wait m_render of_base InteractiveRender
          RewardVecEnvWrapper_methods ext heap fst snd]).

Lemma frame_cap_run' fps w :
  (if (0 <? fps)%Z
   then bind (pure_res (truediv 1 fps)) (fun secs => time_sleep secs)
   else ret tt) w = (frame_cap fps, Val tt, w).
Proof. apply frame_cap_run. Qed.

(** The environment of the factory, with the render wrapper or without. *)
Lemma wrap_render_bounded cfg b policy :
  bounded_base L Inv Good rem b -> bounded_policy Good rem policy ->
  bounded_episodes (wrap_render cfg (of_base b)) policy L
    (on_ext Inv) (on_ext Good) (on_ext rem).
Proof.
  intros [Hrem Hreset Hasync Hwait Hrender] Hpol. split.
  - intros w HG. destruct (Hrem _ HG) as (_ & ? & ?). done.
  - intros w Hw. destruct (Hreset _ Hw) as (obs & x1 & He & HG & Hlen).
    unfold wrap_render. destruct (render_flag cfg).
    + destruct (Hrender _ HG) as ([] & x2 & He2 & HG2 & Hr2).
      eexists _, obs, (mkWorld x2 (heap w)). run_py. rewrite He. cbn.
      rewrite He2. cbn. split; [reflexivity|]. split; [done|].
      by rewrite Hr2.
    + eexists _, obs, (mkWorld x1 (heap w)). run_py. rewrite He.
      by split.
  - intros w obs HG Hlen.
    destruct (Hpol obs _ HG) as (acts & x1 & He & HG1 & Hr1 & Hl1).
    eexists _, acts, (mkWorld x1 (heap w)). run_py. rewrite He. by split.
  - intros w acts HG Hlen.
    destruct (Hasync acts _ HG) as ([] & x1 & He1 & HG1 & Hr1).
    destruct (Hwait _ HG1) as (res & x2 & He2 & HG2 & Hrel & Hterm).
    rewrite Hr1 in Hrel.
    unfold wrap_render. destruct (render_flag cfg).
    + destruct (Hrender _ HG2) as ([] & x3 & He3 & HG3 & Hr3).
      eexists _, res, (mkWorld x3 (heap w)). run_py. rewrite He1. cbn.
      rewrite He2. cbn. rewrite frame_cap_run'. cbn. rewrite He3. cbn.
      split; [reflexivity|]. split; [done|]. by rewrite Hr3.
    + eexists _, res, (mkWorld x2 (heap w)). run_py. rewrite He1. cbn.
      rewrite He2. by split.
Qed.

Lemma relabel_Some (reward_fn : RewardFn Obs Act) obs acts
    (res : StepResult Obs Info) :
  length obs = length res -> length acts = length res ->
  Forall reports_terminal res ->
  exists res',
    relabel reward_fn obs acts res = Some res' /\
    Forall2 (fun r r' => i_done r' = i_done r /\
                         i_terminal r' = i_terminal r) res res'.
Proof.
  intros Ho Ha Ht. revert obs acts Ho Ha.
  induction Ht as [|r res Hr _ IH]; intros [|o obs] [|a acts]; cbn; try done.
  - intros _ _. by exists [].
  - intros [= Ho] [= Ha]. destruct (IH _ _ Ho Ha) as (rest & -> & Hrest).
    assert (is_Some (next_state r)) as [o' ->].
    { unfold next_state. destruct (i_done r) eqn:Hd; [by apply Hr|done]. }
    cbn. eexists. split; [done|]. by constructor.
Qed.

Lemma next_states_Some (res : StepResult Obs Info) :
  Forall reports_terminal res -> is_Some (mapM next_state res).
Proof.
  intros Ht. apply mapM_is_Some. eapply Forall_impl; [exact Ht|].
  intros r Hr. unfold next_state. cbn.
  destruct (i_done r) eqn:Hd; [by apply Hr|done].
Qed.

Lemma step_rel_relabel ks (res res' : StepResult Obs Info) ks' :
  Forall3 (step_rel L) ks res ks' ->
  Forall2 (fun r r' => i_done r' = i_done r /\
                       i_terminal r' = i_terminal r) res res' ->
  Forall3 (step_rel L) ks res' ks'.
Proof.
  intros H. revert res'. induction H as [|k r k' ks res ks' Hr _ IH];
    intros res' Hres; inversion Hres as [|? r' ? ? [Hd _] Hrest]; subst;
    constructor; [|by apply IH].
  unfold step_rel in *. by rewrite Hd.
Qed.

Lemma reports_terminal_relabel (res res' : StepResult Obs Info) :
  Forall reports_terminal res ->
  Forall2 (fun r r' => i_done r' = i_done r /\
                       i_terminal r' = i_terminal r) res res' ->
  Forall reports_terminal res'.
Proof.
  intros H Hres. induction Hres as [|r r' res res' [Hd Ht] _ IH];
    [done|]. apply Forall_cons in H as [Hr H].
  constructor; [|by apply IH]. unfold reports_terminal in *.
  by rewrite Hd, Ht.
Qed.

(** The reward wrapper around an environment with bounded episodes has
    bounded episodes. *)
Lemma reward_wrapper_bounded venv policy (reward_fn : RewardFn Obs Act) self :
  bounded_episodes venv policy L (on_ext Inv) (on_ext Good) (on_ext rem) ->
  venv_outside venv ->
  bounded_episodes (RewardVecEnvWrapper_methods venv reward_fn self) policy L
    (wrapper_start Inv self) (wrapper_good Good rem self) (on_ext rem).
Proof.
  intros [Hrem Hreset Hpol Hstep] (Oreset & Oasync & Owait & _). split.
  - intros w [HG _]. by apply Hrem.
  - intros [x h] [Hw [c Hc]]. cbn in Hw, Hc.
    destruct (Hreset (mkWorld x h) Hw)
      as (ev & obs & [x1 h1] & He & HG & Hlen).
    destruct (runs_outside_sub CReset _ Oreset _ _ _ _ _ He) as [Hh _].
    cbn in Hh. subst h1.
    eexists _, obs, _. split; [|split].
    + unfold reset at 1. cbn [m_reset RewardVecEnvWrapper_methods].
      rewrite sub_run, (bind_Val _ _ _ _ _ _ He).
      unfold read, write, bind, ret. cbn [heap ext]. rewrite Hc. reflexivity.
    + split; [done|].
      exists (mkCell (Some obs) (actions c)), obs. cbn [heap ext old_obs].
      split; [|done]. apply list_lookup_insert_eq. by eapply lookup_lt_Some.
    + done.
  - intros [x h] obs [HG Hcell] Hlen.
    destruct (Hpol (mkWorld x h) obs HG Hlen)
      as (ev & acts & [x1 h1] & He & HG1 & Hr1 & Hl1).
    destruct (runs_outside_call CPredict (policy obs) _ _ _ _ _ He) as [Hh _].
    cbn in Hh. subst h1.
    exists ev, acts, (mkWorld x1 h). split; [done|]. split; [|done].
    split; [done|]. unfold on_ext in Hr1. cbn [ext heap] in *.
    by rewrite Hr1.
  - intros [x h] acts [HG (c & obs & Hc & Hobs & Hlo)] Hlen.
    cbn [ext heap] in *.
    destruct (Hstep (mkWorld x h) acts HG Hlen)
      as (ev & res & w2 & He & HG2 & Hrel & Hterm).
    apply step_inv in He as (ev1 & [x1 h1] & ev2 & Ha & Hw & ->).
    destruct (runs_outside_sub CStepAsync _ (Oasync acts) _ _ _ _ _ Ha)
      as [Hh Ha'].
    cbn in Hh. subst h1. destruct w2 as [x2 h2].
    destruct (runs_outside_sub CStepWait _ Owait _ _ _ _ _ Hw) as [Hh Hw'].
    cbn in Hh. subst h2. cbn [ext] in *.
    change (sub CStepAsync (m_step_async venv acts))
      with (step_async venv acts) in Ha'.
    change (sub CStepWait (m_step_wait venv)) with (step_wait venv) in Hw'. unfold on_ext in Hrel, HG2.
    cbn [ext] in Hrel, HG2.
    destruct (Forall3_length_eq _ _ _ _ Hrel) as [Hlr Hlk].
    destruct (relabel_Some reward_fn obs acts res) as (res' & Hrl & Hsame);
      [congruence|unfold on_ext in Hlen; cbn in Hlen; congruence|done|].
    destruct (next_states_Some res Hterm) as [ns Hns].
    set (h1 := <[self := mkCell (old_obs c) (Some acts)]> h).
    assert (h1 !! self = Some (mkCell (old_obs c) (Some acts))) as Hc1.
    { apply list_lookup_insert_eq. by eapply lookup_lt_Some. }
    eexists _, res', _. split; [|split; [|split]].
    + unfold step. unfold step_async at 1.
      cbn [m_step_async RewardVecEnvWrapper_methods].
      erewrite bind_Val; cycle 1.
      { rewrite sub_run. unfold read, write, bind. cbn [heap ext].
        rewrite Hc. cbn [heap ext]. fold h1. rewrite (Ha' h1). reflexivity. }
      unfold step_wait at 1. cbn [m_step_wait RewardVecEnvWrapper_methods].
      rewrite sub_run. rewrite (bind_Val _ _ _ _ _ _ (Hw' h1)).
      unfold read, write, bind, ret. cbn [heap ext]. rewrite Hc1, Hns.
      cbn [old_obs actions]. rewrite Hobs, Hrl. reflexivity.
    + split; [done|]. cbn [heap ext].
      eexists _, _. split.
      { apply list_lookup_insert_eq. unfold h1. rewrite length_insert.
        by eapply lookup_lt_Some. }
      split; [reflexivity|]. rewrite length_map. congruence.
    + unfold on_ext. cbn [ext]. by eapply step_rel_relabel.
    + by eapply reports_terminal_relabel.
Qed.

Ltac unfold_script :=
  unfold with_ExitStack, enter_context, push_exit, lift, with_, ExitStack_exit,
    call, sub, lift_ext, try_, bind, ret, raise, pure_res, in_frame,
    assign_trajs, read_trajs.

(** In a cooperative world, with a budget of [B >= 1] timesteps or episodes
    and fuel for [(L + 1) * (B + 1)] steps, the script returns. *)
Lemma eval_policy_returns fuel I c w B :
  cooperative L Inv Good rem I ->
  Inv (ext w) ->
  exactly_one_budget c = true ->
  eval_n_timesteps c = Some B \/ eval_n_episodes c = Some B ->
  (1 <= B)%Z ->
  (L + 1) * (Z.to_nat B + 1) <= fuel ->
  exists ev s w', eval_policy (link fuel I) c w = (ev, Val s, w').
Proof.
  intros [Hmk Hsym Hverb Hinfo Hfac Hlr Hlp] Hw Hone HB HB1 Hfuel.
  destruct w as [x0 h]. cbn [ext] in Hw.
  destruct (Hmk (log_dir c) _ Hw) as ([] & x1 & E1 & I1).
  destruct (Hsym (log_dir c) _ I1) as ([] & x2 & E2 & I2).
  destruct (Hverb _ I2) as ([] & x3 & E3 & I3).
  destruct (Hinfo ("Logging to " ++ log_dir c)%string _ I3)
    as ([] & x4 & E4 & I4).
  assert (exists su, make_sample_until (eval_n_timesteps c) (eval_n_episodes c)
                     = Val su) as [su Esu].
  { unfold exactly_one_budget in Hone. unfold make_sample_until.
    destruct (eval_n_timesteps c), (eval_n_episodes c); try done; by eexists. }
  destruct (Hfac (env_name c) (num_vec c) (_seed c) (parallel c) (log_dir c)
              (max_episode_steps c) _ I4) as (base & x5 & E5 & I5 & Hbase).
  pose proof (wrap_render_outside c _ (of_base_outside base)) as Hout.
  set (venv0 := wrap_render c (of_base base)) in *.
  (* what the rollout gives, on any environment with bounded episodes *)
  assert (forall venv policy Start GoodW w1,
            bounded_episodes venv policy L Start GoodW (on_ext rem) ->
            Start w1 ->
            exists inner trajs w2 s,
              generate_trajectories fuel policy venv su w1
                = (inner, Val trajs, w2) /\ GoodW w2 /\
              rollout_stats trajs = Val s) as Hroll.
  { intros venv policy Start GoodW w1 Hbe Hs.
    destruct (generate_trajectories_returns_within _ _ _ _ _ _ _ _ _ B fuel w1
                Hbe Esu HB Hs Hfuel) as (inner & trajs & w2 & Hgen & HG2).
    destruct (generate_trajectories_inv (fun _ => True) _ _ _ _ _ _ _ _
                ltac:(intros; by apply Forall_true)
                ltac:(intros; by apply Forall_true) Hgen)
      as (_ & n & Hstop & Hn).
    assert (trajs <> []) as Hne.
    { intros ->. cbn in Hstop, Hn. subst n. revert Hstop.
      unfold make_sample_until, exactly_one_budget in *.
      destruct (eval_n_timesteps c), (eval_n_episodes c); try done;
        injection Esu as <-; destruct HB as [[= ->]|[= ->]];
        intros ?%Z.leb_le; lia. }
    exists inner, trajs, w2. destruct trajs; [done|]. by eexists. }
  assert (forall venv rfn x,
            RewardVecEnvWrapper venv rfn (mkWorld x h)
            = ([], Val (RewardVecEnvWrapper_methods venv rfn (length h)),
               mkWorld (Obs := Obs) (Act := Act) x (h ++ [mkCell None None])))
    as Ector by reflexivity.
  unfold eval_policy, rollout_block.
  cbn [link os_makedirs build_sacred_symlink tf_logging_set_verbosity
       tf_logging_info rollout_make_sample_until util_make_vec_env
       load_reward reward_wrapper_RewardVecEnvWrapper serialize_load_policy
       rollout_generate_trajectories rollout_rollout_stats].
  fold venv0.
  set (gen := generate_trajectories fuel) in *.
  set (ctor := RewardVecEnvWrapper) in *.
  set (stats := rollout_stats) in *.
  set (msu := make_sample_until) in *.
  set (msg1 := ("Logging to " ++ log_dir c)%string) in *.
  destruct (reward_type c) as [rt|].
  - destruct (Hlr rt (reward_path c) venv0 _ I5)
      as (rctx & x6 & E6 & I6 & Hrenter & Hrexit).
    destruct (Hrenter _ I6) as (rfn & x7 & E7 & I7 & _).
    set (self := length h).
    set (venv := RewardVecEnvWrapper_methods venv0 rfn self).
    set (msg2 := ("Wrapped env in reward " ++ rt ++ " from "
                    ++ str_opt (reward_path c) ++ ".")%string).
    destruct (Hinfo msg2 _ I7) as ([] & x8 & E8 & I8).
    destruct (Hlp (policy_type c) (policy_path c) venv _ I8)
      as (pctx & x9 & E9 & I9 & Hpenter & Hpexit).
    destruct (Hpenter _ I9) as (policy & x10 & E10 & I10 & Hpol).
    destruct (Hroll venv policy _ _
                (mkWorld x10 (h ++ [mkCell None None]))
                (reward_wrapper_bounded venv0 policy rfn self
                   (wrap_render_bounded c base policy Hbase Hpol) Hout))
      as (inner & trajs & [x11 h11] & s & Egen & [HG11 _] & Estats).
    { split; [done|]. cbn [heap]. unfold self.
      rewrite list_lookup_middle by done. by eexists. }
    cbn [ext] in HG11. destruct (bb_rem _ _ _ _ _ Hbase _ HG11) as [I11 _].
    destruct (Hpexit None _ I11) as (b1 & x12 & E12 & I12).
    destruct (Hrexit None _ I12) as (b2 & x13 & E13 & I13).
    specialize (Ector venv0 rfn x7). fold self venv in Ector.
    clearbody gen ctor stats msu msg1 msg2.
    eexists _, _, _. unfold_script. cbn -[wrap_render].
    rewrite E1. cbn -[wrap_render]. rewrite E2. cbn -[wrap_render].
    rewrite E3. cbn -[wrap_render]. rewrite E4. cbn -[wrap_render].
    rewrite Esu. cbn -[wrap_render]. rewrite E5. cbn -[wrap_render].
    change (wrap_render c (of_base base)) with venv0.
    clearbody venv. clearbody venv0.
    rewrite E6. cbn. rewrite E7. cbn.
    rewrite Ector. cbn. rewrite E8. cbn. rewrite E9. cbn. rewrite E10. cbn.
    rewrite Egen. cbn. rewrite E12. cbn. unfold_script. cbn. rewrite E13. cbn.
    destruct b2; cbn; unfold_script; cbn; rewrite Estats; reflexivity.
  - destruct (Hlp (policy_type c) (policy_path c) venv0 _ I5)
      as (pctx & x9 & E9 & I9 & Hpenter & Hpexit).
    destruct (Hpenter _ I9) as (policy & x10 & E10 & I10 & Hpol).
    destruct (Hroll venv0 policy _ _ (mkWorld x10 h)
                (wrap_render_bounded c base policy Hbase Hpol))
      as (inner & trajs & [x11 h11] & s & Egen & HG11 & Estats); [done|].
    unfold on_ext in HG11. cbn [ext] in HG11.
    destruct (bb_rem _ _ _ _ _ Hbase _ HG11) as [I11 _].
    destruct (Hpexit None _ I11) as (b1 & x12 & E12 & I12).
    clearbody gen ctor stats msu msg1.
    eexists _, _, _. unfold_script. cbn -[wrap_render].
    rewrite E1. cbn -[wrap_render]. rewrite E2. cbn -[wrap_render].
    rewrite E3. cbn -[wrap_render]. rewrite E4. cbn -[wrap_render].
    rewrite Esu. cbn -[wrap_render]. rewrite E5. cbn -[wrap_render].
    change (wrap_render c (of_base base)) with venv0.
    clearbody venv0.
    rewrite E9. cbn. rewrite E10. cbn.
    rewrite Egen. cbn. rewrite E12. cbn. unfold_script. cbn.
    rewrite Estats. reflexivity.
Qed.

End cooperation_facts.

(** ** The script, call by call *)

Section eval_policy_facts.

Context {Obs Act Info X : Type}.
Implicit Types (I : Imports Obs Act Info X) (w : World Obs Act X)
  (venv : VecEnv Obs Act Info X) (reward_fn : RewardFn Obs Act).

(** Symbolic execution: unfold the combinators, and split on the outcome of
    the first call that is stuck on an unknown callee. *)
Ltac break_stuck :=
  match goal with
  | |- context [match ?t with _ => _ end] =>
      lazymatch t with
      | context [match _ with _ => _ end] => fail
      | _ => destruct t eqn:?
      end
  end.

Ltac unfold_py :=
  unfold with_ExitStack, enter_context, push_exit, lift, with_, ExitStack_exit,
    call, sub, lift_ext, try_, bind, ret, raise, pure_res, in_frame,
    assign_trajs, read_trajs in *.

Ltac sym_exec := repeat (unfold_py; cbn; try break_stuck).

(** The log messages are of no interest: keep them abstract. *)
Ltac name_messages :=
  repeat match goal with
         | |- context [CLogInfo ?m] =>
             tryif is_var m then fail else (generalize m; intros ?msg)
         end.

Lemma eval_policy_budget_gen I c w ev r w' :
  rollout_make_sample_until I = make_sample_until ->
  eval_policy I c w = (ev, r, w') ->
  (exactly_one_budget c = false ->
     constructs_env ev = false /\ (forall s, r <> Val s) /\
     forall ev0 w0,
       logging_setup I c w = (ev0, Val tt, w0) ->
       ev = ev0 ++ [EvCall CMakeSampleUntil [] (Raised ValueError)] /\
       r = Exc ValueError /\ w' = w0) /\
  (exactly_one_budget c = true ->
     sample_until_outcome ev <> Some (Raised ValueError) /\
     forall ev0 w0,
       logging_setup I c w = (ev0, Val tt, w0) ->
       sample_until_outcome ev = Some Returned /\ constructs_env ev = true).
Proof.
  intros Hsu.
  unfold eval_policy, rollout_block, logging_setup, exactly_one_budget.
  rewrite Hsu. clear Hsu.
  name_messages.
  destruct (eval_n_timesteps c) as [t|], (eval_n_episodes c) as [k|].
  - sym_exec; intros [= <- <- <-]; (split; [intros _|done]).
    all: split; [done|]; split; [done|]; intros ? ? ?; by simplify_eq.
  - sym_exec; intros [= <- <- <-]; (split; [done|intros _]).
    all: split; [done|]; intros ? ? ?; by simplify_eq.
  - sym_exec; intros [= <- <- <-]; (split; [done|intros _]).
    all: split; [done|]; intros ? ? ?; by simplify_eq.
  - sym_exec; intros [= <- <- <-]; (split; [intros _|done]).
    all: split; [done|]; split; [done|]; intros ? ? ?; by simplify_eq.
Qed.

(** C3.  With both of [eval_n_timesteps] and [eval_n_episodes] set, or
    neither, [eval_policy] does not return a value and never calls the
    environment factory; once the logging set-up of lines 84-88 has
    succeeded, the run ends right at [make_sample_until] with the
    configuration error.  With exactly one of the two set,
    [make_sample_until] does not raise it: once the set-up has succeeded it
    returns, and the environment factory is called next. *)
Theorem eval_policy_budget fuel I c w ev r w' :
  eval_policy (link fuel I) c w = (ev, r, w') ->
  (exactly_one_budget c = false ->
     constructs_env ev = false /\ (forall s, r <> Val s) /\
     forall ev0 w0,
       logging_setup I c w = (ev0, Val tt, w0) ->
       ev = ev0 ++ [EvCall CMakeSampleUntil [] (Raised ValueError)] /\
       r = Exc ValueError /\ w' = w0) /\
  (exactly_one_budget c = true ->
     sample_until_outcome ev <> Some (Raised ValueError) /\
     forall ev0 w0,
       logging_setup I c w = (ev0, Val tt, w0) ->
       sample_until_outcome ev = Some Returned /\ constructs_env ev = true).
Proof. apply (eval_policy_budget_gen (link fuel I)). reflexivity. Qed.

(** C2.  In every run of [eval_policy] that ends (by a return or by an
    exception), the policy resource and the reward resource are released:
    along the calls of the run, each [__enter__] that returned is followed
    by a call of the matching [__exit__], and nothing is held at the end.
    When the rollout engine raises [e], the very next call is the policy's
    [__exit__] with [e], and if the reward resource had been acquired its
    [__exit__] is called after that, all before the run ends. *)
Theorem eval_policy_releases_resources I c w ev r w' :
  eval_policy I c w = (ev, r, w') -> r <> Div ->
  balanced RPolicy false ev = true /\ balanced RReward false ev = true /\
  (forall e post,
     rollout_raised ev = Some (e, post) ->
     (exists o post', post = EvCall (CExit RPolicy (Some e)) [] o :: post') /\
     (acquired RReward ev = true -> exit_called RReward post = true)).
Proof.
  unfold eval_policy, rollout_block.
  destruct (reward_type c) as [rt|]; name_messages.
  all: sym_exec; intros [= <- <- <-] Hr; try done.
  all: split; [done|]; split; [done|]; intros e' post [= <- <-].
  all: split; [by eexists _, _|done].
Qed.

(** A run that returns, laid out: the stopping condition, the environment
    of the factory, the wrapper chain, the policy, the one call of the
    rollout engine, and the statistics of what it returned. *)
Lemma eval_policy_success I c w ev s w' :
  eval_policy I c w = (ev, Val s, w') ->
  exists sample_until base x x_b venv policy_ctx x_p x_p' policy x_p''
         w1 inner trajs w2,
    rollout_make_sample_until I (eval_n_timesteps c) (eval_n_episodes c)
      = Val sample_until /\
    util_make_vec_env I (env_name c) (num_vec c) (_seed c) (parallel c)
      (log_dir c) (max_episode_steps c) x = (Val base, x_b) /\
    reward_wrapped I c (wrap_render c (of_base base)) venv w1 /\
    serialize_load_policy I (policy_type c) (policy_path c) venv x_p
      = (Val policy_ctx, x_p') /\
    cm_enter policy_ctx x_p' = (Val policy, x_p'') /\
    rollout_generate_trajectories I policy venv sample_until w1
      = (inner, Val trajs, w2) /\
    rollout_calls ev = [(inner, Returned)] /\
    rollout_rollout_stats I trajs = Val s.
Proof.
  unfold eval_policy, rollout_block, reward_wrapped.
  destruct (reward_type c) as [rt|]; name_messages.
  all: sym_exec; intros [= <- Hs <-].
  all: eexists _, _, _, _, _, _, _, _, _, _, _, _, _, _.
  all: split; [reflexivity|]; split; [eassumption|].
  all: split;
    [|split; [eassumption|split; [eassumption|
        split; [eassumption|split; [by rewrite Hs|done]]]]].
  all: try done.
  all: eexists _, _, _, _, _, _, _, _.
  all: split; [eassumption|]; split; [eassumption|]; split; [eassumption|done].
Qed.

(** C8.  A run of [eval_policy] that returns [s] called the rollout engine
    exactly once, the engine returned some trajectories [trajs], and [s] is
    the value of [rollout_stats] on these trajectories. *)
Theorem eval_policy_returns_stats I c w ev s w' :
  eval_policy I c w = (ev, Val s, w') ->
  exists policy venv sample_until w1 inner trajs w2,
    rollout_generate_trajectories I policy venv sample_until w1
      = (inner, Val trajs, w2) /\
    rollout_calls ev = [(inner, Returned)] /\
    rollout_rollout_stats I trajs = Val s.
Proof.
  intros Hrun.
  destruct (eval_policy_success _ _ _ _ _ _ Hrun)
    as (su & _ & _ & _ & venv & _ & _ & _ & policy & _ & w1 & inner & trajs
        & w2 & _ & _ & _ & _ & _ & Hgen & Hcalls & Hstats).
  by exists policy, venv, su, w1, inner, trajs, w2.
Qed.

Lemma init_sim reward_fn terminal (obs : list Obs) :
  rollout_sim reward_fn terminal
    (mkRollout (map (fun o => mkSlot (Act := Act) o [] true) obs) [] 0)
    (mkRollout (map (fun o => mkSlot o [] true) obs) [] 0).
Proof.
  split; [|by split]. cbn [slots].
  induction obs as [|o obs IH]; constructor; [|done]. by repeat split.
Qed.

Lemma generate_trajectories_sim reward_fn terminal policy venv self su fuel
    w ev ts w' :
  venv_outside venv -> is_Some (heap w !! self) ->
  (forall w ev res w',
     step_wait venv w = (ev, Val res, w') ->
     Forall (terminal_ok terminal) res) ->
  generate_trajectories fuel policy
    (RewardVecEnvWrapper_methods venv reward_fn self) su w = (ev, Val ts, w') ->
  exists ev0 ts0,
    generate_trajectories fuel policy venv su w
      = (ev0, Val ts0, mkWorld (ext w') (heap w)) /\
    Forall2 (traj_sim reward_fn terminal) ts0 ts.
Proof.
  intros Hout [c0 Hc0] Hterm.
  intros (ev1 & obs & w1 & ev2 & H1 & Hrun & ->)%bind_Val_inv.
  apply wrapper_reset_inv in H1 as (e0 & w0 & c & H0 & Hc & -> & ->).
  pose proof Hout as (Hreset & _).
  pose proof (runs_outside_heap _ _ _ _ _ (runs_outside_sub CReset _ Hreset) H0)
    as Hh0.
  eapply (rollout_loop_sim reward_fn terminal) with (h0 := heap w) in Hrun
    as (ev0 & ts0 & Hloop & Hts); [|done|done|apply init_sim|].
  - exists (e0 ++ ev0), ts0. split; [|done].
    unfold generate_trajectories. erewrite bind_Val by exact H0.
    destruct w0 as [x0 h0]. cbn [ext heap] in *. subst h0.
    by rewrite Hloop.
  - eexists. split.
    + cbn [heap]. apply list_lookup_insert_eq. by eapply lookup_lt_Some.
    + cbn [old_obs slots]. by rewrite map_map, map_id.
Qed.

Lemma rewards_match_const reward_fn v (t : Traj Obs Act) next :
  (forall o a o', reward_fn o a o' = v) ->
  rewards_match reward_fn t next -> Forall (fun s => s_rew s = v) t.
Proof.
  intros Hv. induction t as [|s t IH]; [done|].
  intros [Hs Ht]. constructor; [by rewrite Hs|auto].
Qed.

(** The step results of the factory's environment are those of the
    environment the reward wrapper is put around, render wrapper or not. *)
Lemma wrap_render_step_wait cfg (base : BaseEnv Obs Act Info X) w ev res w' :
  step_wait (wrap_render cfg (of_base base)) w = (ev, Val res, w') ->
  exists x x', b_step_wait base x = (Val res, x').
Proof.
  assert (forall w ev w',
            step_wait (of_base base) w = (ev, Val res, w') ->
            exists x x', b_step_wait base x = (Val res, x')) as Hbase.
  { intros w0 ev0 w0' (ev1 & Hrun & _)%sub_inv. revert Hrun.
    cbn. unfold lift_ext.
    destruct (b_step_wait base (ext w0)) as [r x'] eqn:Hb.
    intros [= _ -> _]. by exists (ext w0), x'. }
  unfold wrap_render. destruct (render_flag cfg); [|by apply Hbase].
  intros (ev1 & w1 & _ & H1 & _)%InteractiveRender_step_wait_inv.
  by eapply Hbase.
Qed.

(** C1.  The script linked against the reward wrapper and the rollout
    engine, with a reward type configured.  In a run that returns, the
    trajectories the engine collected (those the result is the statistics
    of) carry the rewards of the reward function that was loaded from
    [(reward_type, reward_path)]: each step's reward is the function's value
    on the step's observation, its action and its next state.  The next
    state of a step is the observation of the step that follows it in the
    trajectory; that of the last step is an observation the environment
    reported as the one an episode ended in (it has any property
    [terminal] that the environment guarantees of these), not the
    observation that opens the next episode.  With a constant function,
    every reward is that constant.  Nothing else changes: from the same
    world the engine on the unwrapped environment returns the same
    trajectories but for the rewards (same observations, actions and done
    flags, hence the same episode boundaries), and ends in the same outside
    state.  Step by step: each step of the wrapped environment returns the
    result of the step of the environment inside, where the reward of each
    instance is the function's value on the observation the wrapper last
    handed out for it, the action it was given, and the next state of this
    very step: the observation the episode ended in if the step ended one,
    the observation that came back otherwise. *)
Theorem eval_policy_reward_override (terminal : Obs -> Prop) fuel I c w ev s
    w' rt :
  reward_type c = Some rt ->
  (forall base x x',
     util_make_vec_env I (env_name c) (num_vec c) (_seed c) (parallel c)
       (log_dir c) (max_episode_steps c) x = (Val base, x') ->
     forall x1 res x2,
       b_step_wait base x1 = (Val res, x2) ->
       Forall (fun r => forall o, i_done r = true ->
                                  i_terminal r = Some o -> terminal o) res) ->
  eval_policy (link fuel I) c w = (ev, Val s, w') ->
  exists base reward_fn_ctx x x' reward_fn x'' policy sample_until self
         w1 inner trajs w2,
    let venv0 := wrap_render c (of_base base) in
    load_reward I rt (reward_path c) venv0 x = (Val reward_fn_ctx, x') /\
    cm_enter reward_fn_ctx x' = (Val reward_fn, x'') /\
    generate_trajectories fuel policy
      (RewardVecEnvWrapper_methods venv0 reward_fn self) sample_until w1
      = (inner, Val trajs, w2) /\
    rollout_calls ev = [(inner, Returned)] /\
    rollout_stats trajs = Val s /\
    Forall (fun t => exists next,
                       terminal next /\ rewards_match reward_fn t next) trajs /\
    (forall v, (forall o a o', reward_fn o a o' = v) ->
               Forall (Forall (fun st => s_rew st = v)) trajs) /\
    (exists inner0 trajs0,
       generate_trajectories fuel policy venv0 sample_until w1
         = (inner0, Val trajs0, mkWorld (ext w2) (heap w1)) /\
       Forall2 same_but_rewards trajs0 trajs) /\
    forall w ev res' w',
      step_wait (RewardVecEnvWrapper_methods venv0 reward_fn self) w
        = (ev, Val res', w') ->
      exists ev0 res w0 cell obs acts,
        step_wait venv0 w = (ev0, Val res, w0) /\
        heap w0 !! self = Some cell /\
        old_obs cell = Some obs /\ actions cell = Some acts /\
        length res' = length res /\
        forall i o a r r',
          obs !! i = Some o -> acts !! i = Some a ->
          res !! i = Some r -> res' !! i = Some r' ->
          i_obs r' = i_obs r /\ i_done r' = i_done r /\
          exists o',
            (if i_done r then i_terminal r else Some (i_obs r)) = Some o' /\
            i_rew r' = reward_fn o a o'.
Proof.
  intros Hrt Hterm Hrun.
  destruct (eval_policy_success _ _ _ _ _ _ Hrun)
    as (su & base & xb & xb' & venv & pctx & xp & xp' & policy & xp'' & w1
        & inner & trajs & w2
        & _ & Hbase & Hwrap & Hpol & Hpol' & Hgen & Hcalls & Hstats).
  unfold reward_wrapped in Hwrap. rewrite Hrt in Hwrap.
  destruct Hwrap as (rctx & x & x' & rfn & x'' & wa & evw & wb
                     & Hload & Henter & Hctor & Hheap).
  cbn [link load_reward reward_wrapper_RewardVecEnvWrapper
       serialize_load_policy rollout_generate_trajectories
       rollout_rollout_stats util_make_vec_env] in *.
  apply RewardVecEnvWrapper_inv in Hctor as [-> Hwb].
  destruct (generate_trajectories_sim rfn terminal _ _ _ _ _ _ _ _ _
              (wrap_render_outside c _ (of_base_outside base))
              ltac:(rewrite Hheap, Hwb, list_lookup_middle by done; eauto)
              ltac:(intros w3 ev3 res w3'
                      (x1 & x2 & Hb)%wrap_render_step_wait;
                    exact (Hterm _ _ _ Hbase _ _ _ Hb))
              Hgen)
    as (inner0 & trajs0 & Hgen0 & Hsim).
  assert (Forall (fun t => exists next,
                    terminal next /\ rewards_match rfn t next) trajs) as Hrew.
  { clear -Hsim. induction Hsim as [|t0 t ts0 ts [_ Ht] _ IH]; by constructor. }
  exists base, rctx, x, x', rfn, x'', policy, su, (length (heap wa)),
    w1, inner, trajs, w2.
  cbn zeta. repeat (split; [done|]). split.
  { intros v Hv. eapply Forall_impl; [exact Hrew|].
    intros t (next & _ & Ht). by eapply rewards_match_const. }
  split.
  { exists inner0, trajs0. split; [done|].
    eapply Forall2_impl; [exact Hsim|]. by intros t0 t [? _]. }
  intros w3 ev3 res' w3' Hstep.
  apply wrapper_step_wait_inv in Hstep
    as (ev0 & res & w0 & c0 & obs & acts & Hw & Hc & Ho & Ha & Hrel & _ & _).
  exists ev0, res, w0, c0, obs, acts. repeat (split; [done|]).
  by apply relabel_spec.
Qed.

(** C5.  The script linked against the stopping condition, the rollout
    engine and the aggregator.  In a run that returns, with
    [eval_n_episodes = K] the engine returned at least [K] trajectories
    (and [n_traj] of the result is their number); with
    [eval_n_timesteps = T] the lengths of the returned trajectories add up
    to at least [T].  And the script does return: in a cooperative world
    (every callee answers, and the episodes of the factory's environment
    last at most [L] steps), with a budget of [B >= 1] timesteps or
    episodes, the run returns once the model of the engine is given fuel
    for [(L + 1) * (B + 1)] steps. *)
Theorem eval_policy_budget_met fuel I c w :
  (forall ev s w',
     eval_policy (link fuel I) c w = (ev, Val s, w') ->
     exists policy venv sample_until w1 inner trajs w2,
       generate_trajectories fuel policy venv sample_until w1
         = (inner, Val trajs, w2) /\
       rollout_calls ev = [(inner, Returned)] /\
       rollout_stats trajs = Val s /\
       n_traj s = length trajs /\
       (forall K, eval_n_episodes c = Some K ->
                  (K <= Z.of_nat (length trajs))%Z) /\
       (forall T, eval_n_timesteps c = Some T ->
                  (T <= Z.of_nat (total_len trajs))%Z)) /\
  (forall L Inv Good rem B,
     cooperative L Inv Good rem I ->
     Inv (ext w) ->
     exactly_one_budget c = true ->
     eval_n_timesteps c = Some B \/ eval_n_episodes c = Some B ->
     (1 <= B)%Z ->
     (L + 1) * (Z.to_nat B + 1) <= fuel ->
     exists ev s w', eval_policy (link fuel I) c w = (ev, Val s, w')).
Proof.
  split; [|intros L Inv Good rem B; apply eval_policy_returns].
  intros ev s w' Hrun.
  destruct (eval_policy_success _ _ _ _ _ _ Hrun)
    as (su & base & xb & xb' & venv & pctx & xp & xp' & policy & xp'' & w1
        & inner & trajs & w2
        & Hsu & _ & _ & _ & _ & Hgen & Hcalls & Hstats).
  cbn [link rollout_make_sample_until rollout_generate_trajectories
       rollout_rollout_stats] in *.
  exists policy, venv, su, w1, inner, trajs, w2.
  repeat (split; [done|]).
  split. { destruct trajs; [done|]. by injection Hstats as <-. }
  destruct (generate_trajectories_inv (fun _ => True) _ _ _ _ _ _ _ _
              ltac:(intros; by apply Forall_true)
              ltac:(intros; by apply Forall_true) Hgen)
    as (_ & n & Hstop & ->).
  unfold make_sample_until in Hsu.
  split; intros k Hk; rewrite Hk in Hsu;
    destruct (eval_n_timesteps c), (eval_n_episodes c); try done;
    injection Hsu as <-; simplify_eq; by apply Z.leb_le.
Qed.

(** C9.  With a reward type configured, the environment handed to the
    policy loader and to the rollout engine is the reward wrapper around
    [wrap_render c base]: around [InteractiveRender base fps] when [render]
    is set, around [base] itself otherwise.  Each step of it returns the
    result of the step of the environment inside, with the rewards
    recomputed; the environment inside (the render wrapper, when there is
    one) returned the very result of the factory's environment, native
    rewards included. *)
Theorem reward_wrapper_outside_render fuel I c w ev s w' rt :
  reward_type c = Some rt ->
  eval_policy (link fuel I) c w = (ev, Val s, w') ->
  exists (base : BaseEnv Obs Act Info X) reward_fn self policy sample_until
         w1 inner trajs w2,
    let venv0 := wrap_render c (of_base base) in
    let venv := RewardVecEnvWrapper_methods venv0 reward_fn self in
    (render_flag c = true ->
       venv0 = InteractiveRender (of_base base) (render_fps c)) /\
    (exists policy_ctx x x' x'',
       serialize_load_policy I (policy_type c) (policy_path c) venv x
         = (Val policy_ctx, x') /\
       cm_enter policy_ctx x' = (Val policy, x'')) /\
    generate_trajectories fuel policy venv sample_until w1
      = (inner, Val trajs, w2) /\
    rollout_calls ev = [(inner, Returned)] /\
    forall w ev res' w',
      step_wait venv w = (ev, Val res', w') ->
      exists ev0 res w0 obs acts evb wb,
        ev = [EvCall CStepWait ev0 Returned] /\
        step_wait venv0 w = (ev0, Val res, w0) /\
        step_wait (of_base base) w = (evb, Val res, wb) /\
        relabel reward_fn obs acts res = Some res'.
Proof.
  intros Hrt Hrun.
  destruct (eval_policy_success _ _ _ _ _ _ Hrun)
    as (su & base & xb & xb' & venv & pctx & xp & xp' & policy & xp'' & w1
        & inner & trajs & w2
        & _ & _ & Hwrap & Hpol & Hpol' & Hgen & Hcalls & Hstats).
  unfold reward_wrapped in Hwrap. rewrite Hrt in Hwrap.
  destruct Hwrap as (rctx & x & x' & rfn & x'' & wa & evw & wb
                     & Hload & Henter & Hctor & Hheap).
  cbn [link load_reward reward_wrapper_RewardVecEnvWrapper
       serialize_load_policy rollout_generate_trajectories
       rollout_rollout_stats] in *.
  apply RewardVecEnvWrapper_inv in Hctor as [-> Hwb].
  exists base, rfn, (length (heap wa)), policy, su, w1, inner, trajs, w2.
  cbn zeta. split. { unfold wrap_render. by intros ->. }
  split. { by exists pctx, xp, xp', xp''. }
  repeat (split; [done|]).
  intros w3 ev3 res' w3' Hstep.
  apply wrapper_step_wait_inv in Hstep
    as (ev0 & res & w0 & c0 & obs & acts & Hw & _ & _ & _ & Hrel & _ & ->).
  exists ev0, res, w0, obs, acts.
  unfold wrap_render in Hw |- *. destruct (render_flag c).
  - destruct (InteractiveRender_step_wait_inv _ _ _ _ _ _ Hw)
      as (evb & wb0 & _ & Hb & _).
    by exists evb, wb0.
  - by exists ev0, w0.
Qed.



End eval_policy_facts.


(** A run of C6 in the toy world, at 30 frames per second: the step result
    of the wrapper is that of the simulator, and one frame was drawn. *)
Lemma InteractiveRender_pass_through_witness :
  step_wait (InteractiveRender (of_base Toy.base) 30) (Toy.w0 None) =
    ([EvCall CStepWait
        [EvCall CStepWait [] Returned;
         EvCall (CSleep (1 # 30)) [] Returned;
         EvCall CRender [] Returned] Returned],
     Val [],
     mkWorld (Toy.mkX [] 1 None [] 1) []).
Proof.
  apply (proj2 (InteractiveRender_pass_through (of_base Toy.base) 30
                  (Toy.w0 None))).
  exists [EvCall CStepWait [] Returned], (mkWorld (Toy.mkX [] 1 None [] 0) []),
    [EvCall CRender [] Returned].
  repeat split; reflexivity.
Defined.

(** A run of C10 in the toy world, with [render_fps = 0]. *)
Lemma InteractiveRender_sleeps_only_for_positive_fps_witness :
  exists ev w',
    m_step_wait (InteractiveRender (of_base Toy.base) 0) (Toy.w0 None)
      = (ev, Val [], w') /\
    (0 <= 0)%Z /\ slept ev = [].
Proof.
  eexists _, _. split; [reflexivity|]. split; [lia|].
  apply (proj1 (InteractiveRender_sleeps_only_for_positive_fps
                  (of_base Toy.base) 0 (Toy.w0 None) _ _ _ eq_refl)).
  lia.
Defined.

(** C3 in the toy world: both budgets set.  The run ends with the
    configuration error and the factory is never called. *)
Lemma eval_policy_budget_witness :
  exactly_one_budget (Toy.config (Some 7%Z) (Some 3%Z) false 0 None) = false /\
  exists ev w',
    eval_policy (link 20 (Toy.imports 20))
      (Toy.config (Some 7%Z) (Some 3%Z) false 0 None) (Toy.w0 None)
    = (ev, Exc ValueError, w') /\
    constructs_env ev = false.
Proof.
  split; [reflexivity|]. eexists _, _. split; [vm_compute; reflexivity|].
  refine (proj1 (proj1 (eval_policy_budget 20 (Toy.imports 20)
            (Toy.config (Some 7%Z) (Some 3%Z) false 0 None) (Toy.w0 None)
            _ _ _ _) _)).
  - vm_compute; reflexivity.
  - reflexivity.
Defined.

(** C2 in the toy world: the simulator crashes at its fourth step; both fake
    resources have recorded their release, with the exception. *)
Lemma eval_policy_releases_resources_witness :
  exists ev w',
    eval_policy (Toy.imports 20)
      (Toy.config (Some 7%Z) None false 0 (Some "airl")) (Toy.w0 (Some 3%nat))
    = (ev, Exc OSError, w') /\
    Exc (A := Stats) OSError <> Div /\
    balanced RPolicy false ev = true /\ balanced RReward false ev = true /\
    Toy.released (ext w')
      = [(RPolicy, Some OSError); (RReward, Some OSError)].
Proof.
  eexists _, _. split; [vm_compute; reflexivity|]. split; [discriminate|].
  assert (eval_policy (Toy.imports 20)
            (Toy.config (Some 7%Z) None false 0 (Some "airl"))
            (Toy.w0 (Some 3%nat)) = _) as Hrun by (vm_compute; reflexivity).
  pose proof (eval_policy_releases_resources _ _ _ _ _ _ Hrun) as H.
  split; [|split; [|reflexivity]]; apply H; discriminate.
Defined.

(** C8 in the toy world: a run that returns, and the trajectories its
    result is the statistics of. *)
Lemma eval_policy_returns_stats_witness :
  exists ev s w',
    eval_policy (Toy.imports 20)
      (Toy.config None (Some 3%Z) false 0 None) (Toy.w0 None)
    = (ev, Val s, w') /\
    exists trajs, rollout_stats (Obs := nat) (Act := nat) trajs = Val s
                  /\ n_traj s = 4%nat.
Proof.
  eexists _, _, _. split; [vm_compute; reflexivity|].
  assert (eval_policy (Toy.imports 20)
            (Toy.config None (Some 3%Z) false 0 None) (Toy.w0 None) = _)
    as Hrun by (vm_compute; reflexivity).
  destruct (eval_policy_returns_stats _ _ _ _ _ _ Hrun)
    as (_ & _ & _ & _ & _ & trajs & _ & _ & _ & Hs).
  exists trajs. split; [exact Hs|reflexivity].
Defined.


(** C4 in the toy world: episodes open at observation 0. *)
Lemma toy_step_fresh (ps ls : list nat) :
  Forall (fun r : InstStep nat unit => i_done r = true -> i_obs r = 0%nat)
    (zip_with Toy.advance_inst ps ls).
Proof.
  revert ls. induction ps as [|p ps IH]; intros [|l ls]; cbn; try done.
  constructor; [|done]. unfold Toy.advance_inst. by destruct (_ =? _)%nat.
Qed.

Lemma generate_trajectories_well_formed_witness :
  exists ev ts w',
    generate_trajectories 20 Toy.policy (of_base Toy.base)
      (fun _ episodes => (3 <=? episodes)%nat) (Toy.w0 None)
    = (ev, Val ts, w') /\
    length ts = 4%nat /\
    Forall (well_formed (fun o => o = 0%nat)) ts.
Proof.
  eexists _, _, _. split; [vm_compute; reflexivity|]. split; [reflexivity|].
  eapply (generate_trajectories_well_formed (fun o => o = 0%nat) 20 Toy.policy
            (of_base Toy.base) (fun _ episodes => (3 <=? episodes)%nat)
            (Toy.w0 None)).
  - intros w ev obs w' (ev0 & Hrun & _)%sub_inv. injection Hrun as _ <- _.
    by repeat constructor.
  - intros w ev res w' (ev0 & Hrun & _)%sub_inv. revert Hrun.
    cbn. unfold lift_ext, Toy.b_step_wait. destruct (bool_decide _); [done|].
    intros [= _ <- _]. apply toy_step_fresh.
  - vm_compute; reflexivity.
Defined.

(** The toy world is cooperative. *)
Lemma toy_bounded_base :
  bounded_base 3 Toy.Inv Toy.Good Toy.rem Toy.base.
Proof.
  split.
  - intros [pos clock crash rel frames] [Hc (p & q & Hpos & Hp & Hq)].
    cbn in Hc, Hpos. subst. split; [done|]. unfold Toy.rem. cbn.
    split; [done|]. repeat (constructor; [lia|]). constructor.
  - intros [pos clock crash rel frames] Hc. unfold Toy.Inv in Hc.
    cbn in Hc. subst crash. eexists _, _. split; [reflexivity|].
    split; [|reflexivity]. split; [reflexivity|]. exists 0, 0. cbn.
    repeat split; lia.
  - intros acts [pos clock crash rel frames] HG. by eexists _, _.
  - intros [pos clock crash rel frames] [Hc (p & q & Hpos & Hp & Hq)].
    cbn in Hc, Hpos. subst.
    assert ((p = 0 \/ p = 1) /\ (q = 0 \/ q = 1 \/ q = 2))
      as [[-> | ->] [-> | [-> | ->]]] by lia;
      (eexists _, _; split; [reflexivity|]; split;
       [split; [reflexivity|]; eexists _, _; cbn; repeat split; lia
       |split;
        [repeat (apply Forall3_cons;
                   [unfold step_rel; cbn; split; [reflexivity|lia]|]);
         apply Forall3_nil
        |repeat (constructor; [by intros ?; cbn; eauto|]); constructor]]).
  - intros [pos clock crash rel frames] HG. eexists _, _.
    split; [reflexivity|]. by split.
Qed.

Lemma toy_bounded_policy : bounded_policy Toy.Good Toy.rem Toy.policy.
Proof.
  intros obs x HG. eexists _, _. split; [reflexivity|].
  split; [done|]. split; [done|]. by rewrite length_map.
Qed.

Lemma toy_resource {A} r (v : A) (R : A -> Prop) :
  R v -> cooperative_resource Toy.Inv (Toy.resource r v) R.
Proof.
  intros Hv. split.
  - intros x Hx. by eexists _, _.
  - intros exc [pos clock crash rel frames] Hx. by eexists _, _.
Qed.

Lemma toy_cooperative fuel :
  cooperative 3 Toy.Inv Toy.Good Toy.rem (Toy.imports fuel).
Proof.
  split; try (intros; intros x Hx; by eexists _, _).
  - intros ? ? ? ? ? ? x Hx. eexists _, _. split; [reflexivity|].
    split; [done|]. apply toy_bounded_base.
  - intros ? ? ? x Hx. eexists _, _. split; [reflexivity|].
    split; [done|]. by apply toy_resource.
  - intros ? ? ? x Hx. eexists _, _. split; [reflexivity|].
    split; [done|]. apply toy_resource, toy_bounded_policy.
Qed.

(** C5 in the toy world, whose episodes last at most three steps, with fuel
    for 32 steps: with seven timesteps asked for the run returns, and the
    episodes it collected have seven steps or more; with three episodes
    asked for it returns three episodes or more. *)
Lemma eval_policy_budget_met_witness :
  cooperative 3 Toy.Inv Toy.Good Toy.rem (Toy.imports 32) /\
  (exists ev s w' (trajs : list (Traj nat nat)),
     eval_policy (link 32 (Toy.imports 32))
       (Toy.config (Some 7%Z) None false 0 None) (Toy.w0 None)
     = (ev, Val s, w') /\
     rollout_stats trajs = Val s /\
     (7 <= Z.of_nat (total_len trajs))%Z) /\
  (exists ev s w' (trajs : list (Traj nat nat)),
     eval_policy (link 32 (Toy.imports 32))
       (Toy.config None (Some 3%Z) true 30 (Some "airl")) (Toy.w0 None)
     = (ev, Val s, w') /\
     rollout_stats trajs = Val s /\
     (3 <= Z.of_nat (length trajs))%Z).
Proof.
  split; [apply toy_cooperative|]. split.
  - destruct (proj2 (eval_policy_budget_met 32 (Toy.imports 32)
                       (Toy.config (Some 7%Z) None false 0 None)
                       (Toy.w0 None))
                3 Toy.Inv Toy.Good Toy.rem 7%Z (toy_cooperative 32)
                eq_refl eq_refl (or_introl eq_refl))
      as (ev & s & w' & Hrun); [lia|vm_compute; lia|].
    destruct (proj1 (eval_policy_budget_met _ _ _ _) _ _ _ Hrun)
      as (_ & _ & _ & _ & _ & trajs & _ & _ & _ & Hs & _ & _ & HT).
    exists ev, s, w', trajs. split; [exact Hrun|]. split; [exact Hs|].
    apply HT. reflexivity.
  - destruct (proj2 (eval_policy_budget_met 32 (Toy.imports 32)
                       (Toy.config None (Some 3%Z) true 30 (Some "airl"))
                       (Toy.w0 None))
                3 Toy.Inv Toy.Good Toy.rem 3%Z (toy_cooperative 32)
                eq_refl eq_refl (or_intror eq_refl))
      as (ev & s & w' & Hrun); [lia|vm_compute; lia|].
    destruct (proj1 (eval_policy_budget_met _ _ _ _) _ _ _ Hrun)
      as (_ & _ & _ & _ & _ & trajs & _ & _ & _ & Hs & _ & HK & _).
    exists ev, s, w', trajs. split; [exact Hrun|]. split; [exact Hs|].
    apply HK. reflexivity.
Defined.

(** The toy episodes end in observation 2 or 3. *)
Lemma toy_step_terminal (ps ls : list nat) :
  Forall (fun l => l = 2 \/ l = 3)%nat ls ->
  Forall (fun r : InstStep nat unit =>
            forall o, i_done r = true -> i_terminal r = Some o ->
                      o = 2 \/ o = 3)%nat
    (zip_with Toy.advance_inst ps ls).
Proof.
  intros Hls. revert ps. induction Hls as [|l ls Hl _ IH]; intros [|p ps];
    cbn; try done.
  constructor; [|done]. unfold Toy.advance_inst.
  destruct (Nat.eqb_spec (S p) l) as [->|_]; cbn; [|done].
  by intros o _ [= <-].
Qed.

Lemma toy_terminal (I : Imports nat nat unit Toy.X) :
  (forall a b c d e f x, util_make_vec_env I a b c d e f x = (Val Toy.base, x)) ->
  forall cfg base x x',
    util_make_vec_env I (env_name cfg) (num_vec cfg) (_seed cfg) (parallel cfg)
      (log_dir cfg) (max_episode_steps cfg) x = (Val base, x') ->
    forall x1 res x2,
      b_step_wait base x1 = (Val res, x2) ->
      Forall (fun r => forall o, i_done r = true -> i_terminal r = Some o ->
                                 o = 2 \/ o = 3)%nat res.
Proof.
  intros HI cfg base x x'. rewrite HI. intros [= <- _] x1 res x2.
  cbn. unfold Toy.b_step_wait. destruct (bool_decide _); [done|].
  intros [= <- _]. apply toy_step_terminal. by repeat constructor.
Qed.

(** C1 in the toy world, rendering on.  The native reward is 1.  With the
    reward function that tells the next state, the episodes of two and
    three steps return 1 + 2 and 1 + 2 + 3 (the last reward is that of the
    observation the episode ended in, 2 or 3, not of the 0 that opens the
    next one): the mean return of the four episodes is 9/2.  With the
    reward function that is constantly 5, every reward collected is 5. *)
Lemma eval_policy_reward_override_witness :
  (exists ev s w',
     eval_policy (link 20 (ToyMore.imports_next 20))
       (Toy.config None (Some 3%Z) true 0 (Some "airl")) (Toy.w0 None)
     = (ev, Val s, w') /\
     (return_mean s == 9 # 2)%Q /\
     exists trajs : list (Traj nat nat),
       rollout_stats trajs = Val s /\
       Forall (fun t => exists next,
                 (next = 2 \/ next = 3)%nat /\
                 rewards_match ToyMore.next_obs t next) trajs) /\
  (exists ev s w',
     eval_policy (link 20 (Toy.imports 20))
       (Toy.config None (Some 3%Z) true 0 (Some "airl")) (Toy.w0 None)
     = (ev, Val s, w') /\
     exists trajs : list (Traj nat nat),
       rollout_stats trajs = Val s /\
       Forall (Forall (fun st => s_rew st = 5%Q)) trajs).
Proof.
  split.
  - eexists _, _, _. split; [vm_compute; reflexivity|].
    split; [reflexivity|].
    assert (eval_policy (link 20 (ToyMore.imports_next 20))
              (Toy.config None (Some 3%Z) true 0 (Some "airl")) (Toy.w0 None)
            = _) as Hrun by (vm_compute; reflexivity).
    destruct (eval_policy_reward_override (fun o => o = 2 \/ o = 3)%nat 20
                (ToyMore.imports_next 20)
                (Toy.config None (Some 3%Z) true 0 (Some "airl")) _ _ _ _
                "airl" eq_refl
                (toy_terminal (ToyMore.imports_next 20)
                   ltac:(reflexivity) _)
                Hrun)
      as (base & rctx & x & x' & rfn & x'' & _ & _ & _ & _ & _ & trajs & _
          & Hload & Henter & _ & _ & Hstats & Hrew & _).
    injection Hload as <- <-. injection Henter as <- _.
    exists trajs. split; [exact Hstats|exact Hrew].
  - eexists _, _, _. split; [vm_compute; reflexivity|].
    assert (eval_policy (link 20 (Toy.imports 20))
              (Toy.config None (Some 3%Z) true 0 (Some "airl")) (Toy.w0 None)
            = _) as Hrun by (vm_compute; reflexivity).
    destruct (eval_policy_reward_override (fun o => o = 2 \/ o = 3)%nat 20
                (Toy.imports 20)
                (Toy.config None (Some 3%Z) true 0 (Some "airl")) _ _ _ _
                "airl" eq_refl
                (toy_terminal (Toy.imports 20) ltac:(reflexivity) _)
                Hrun)
      as (base & rctx & x & x' & rfn & x'' & _ & _ & _ & _ & _ & trajs & _
          & Hload & Henter & _ & _ & Hstats & _ & Hconst & _).
    injection Hload as <- <-. injection Henter as <- _.
    exists trajs. split; [exact Hstats|]. apply Hconst. reflexivity.
Defined.

(** C9 in the toy world, rendering on: the engine runs on the reward
    wrapper around the render wrapper around the simulator. *)
Lemma reward_wrapper_outside_render_witness :
  exists ev s w',
    eval_policy (link 20 (Toy.imports 20))
      (Toy.config None (Some 3%Z) true 0 (Some "airl")) (Toy.w0 None)
    = (ev, Val s, w') /\
    reward_type (Toy.config None (Some 3%Z) true 0 (Some "airl"))
      = Some "airl" /\
    exists (base : BaseEnv nat nat unit Toy.X) reward_fn self policy
           sample_until w1 inner trajs w2,
      generate_trajectories 20 policy
        (RewardVecEnvWrapper_methods (InteractiveRender (of_base base) 0)
           reward_fn self) sample_until w1
      = (inner, Val trajs, w2) /\
      rollout_calls ev = [(inner, Returned)].
Proof.
  eexists _, _, _. split; [vm_compute; reflexivity|]. split; [reflexivity|].
  assert (eval_policy (link 20 (Toy.imports 20))
            (Toy.config None (Some 3%Z) true 0 (Some "airl")) (Toy.w0 None) = _)
    as Hrun by (vm_compute; reflexivity).
  destruct (reward_wrapper_outside_render 20 (Toy.imports 20)
              (Toy.config None (Some 3%Z) true 0 (Some "airl")) _ _ _ _
              "airl" eq_refl Hrun)
    as (base & rfn & self & policy & su & w1 & inner & trajs & w2
        & _ & _ & Hgen & Hcalls & _).
  exists base, rfn, self, policy, su, w1, inner, trajs, w2.
  split; [exact Hgen|exact Hcalls].
Defined.

(** ** More on [InteractiveRender] *)

Section InteractiveRender_errors.

Context {Obs Act Info X : Type}.
Implicit Types (venv : VecEnv Obs Act Info X) (w : World Obs Act X) (fps : Z).

(** X1.  [InteractiveRender.reset] raises [e] exactly when the wrapped
    environment's [reset] raises [e], and then nothing is rendered, or when
    that [reset] returns and the render that follows raises [e], and then
    the observation is lost although the environment has been reset.  The
    wrapper adds no failure of its own. *)
Theorem InteractiveRender_reset_raises venv fps w ev e w' :
  reset (InteractiveRender venv fps) w = (ev, Exc e, w') <->
  (exists ev1,
     reset venv w = (ev1, Exc e, w') /\
     ev = [EvCall CReset ev1 (Raised e)]) \/
  (exists ev1 ob w1 ev2,
     reset venv w = (ev1, Val ob, w1) /\
     render venv w1 = (ev2, Exc e, w') /\
     ev = [EvCall CReset (ev1 ++ ev2) (Raised e)]).
Proof.
  unfold reset at 1. cbn [m_reset InteractiveRender].
  rewrite sub_run, bind_run.
  destruct (reset venv w) as [[ev1 [ob| e1 |]] w1] eqn:H1.
  - rewrite bind_run. destruct (render venv w1) as [[ev2 [[]| e2 |]] w2] eqn:H2;
      cbn; split.
    + intros [=].
    + intros [(? & [=] & _)|(? & ? & ? & ? & [= <- <- <-] & H & _)].
      rewrite H2 in H. done.
    + intros [= <- <- <-]. right. by exists ev1, ob, w1, ev2.
    + intros [(? & [=] & _)|(? & ? & ? & ? & [= <- <- <-] & H & ->)].
      rewrite H2 in H. by injection H as <- <- <-.
    + intros [=].
    + intros [(? & [=] & _)|(? & ? & ? & ? & [= <- <- <-] & H & _)].
      rewrite H2 in H. done.
  - cbn. split.
    + intros [= <- <- <-]. left. by exists ev1.
    + intros [(? & [= <- <- <-] & ->)|(? & ? & ? & ? & [=] & _)]. done.
  - cbn. split; [intros [=]|].
    intros [(? & [=] & _)|(? & ? & ? & ? & [=] & _)].
Qed.

(** X2.  [InteractiveRender.step_wait] raises [e] exactly when the wrapped
    environment's [step_wait] raises [e], and then it neither sleeps nor
    renders, or when that [step_wait] returns and the render that follows
    the frame-rate sleep raises [e].  Neither the division nor the sleep
    ever raises, whatever the frame rate. *)
Theorem InteractiveRender_step_wait_raises venv fps w ev e w' :
  step_wait (InteractiveRender venv fps) w = (ev, Exc e, w') <->
  (exists ev1,
     step_wait venv w = (ev1, Exc e, w') /\
     ev = [EvCall CStepWait ev1 (Raised e)]) \/
  (exists ev1 res w1 ev2,
     step_wait venv w = (ev1, Val res, w1) /\
     render venv w1 = (ev2, Exc e, w') /\
     ev = [EvCall CStepWait (ev1 ++ frame_cap fps ++ ev2) (Raised e)]).
Proof.
  unfold step_wait at 1. cbn [m_step_wait InteractiveRender].
  rewrite sub_run, bind_run.
  destruct (step_wait venv w) as [[ev1 [res| e1 |]] w1] eqn:H1.
  - rewrite (bind_Val _ _ _ _ _ _ (frame_cap_run fps w1)), bind_run.
    destruct (render venv w1) as [[ev2 [[]| e2 |]] w2] eqn:H2; cbn; split.
    + intros [=].
    + intros [(? & [=] & _)|(? & ? & ? & ? & [= <- <- <-] & H & _)].
      rewrite H2 in H. done.
    + intros [= <- <- <-]. right. by exists ev1, res, w1, ev2.
    + intros [(? & [=] & _)|(? & ? & ? & ? & [= <- <- <-] & H & ->)].
      rewrite H2 in H. by injection H as <- <- <-.
    + intros [=].
    + intros [(? & [=] & _)|(? & ? & ? & ? & [= <- <- <-] & H & _)].
      rewrite H2 in H. done.
  - cbn. split.
    + intros [= <- <- <-]. left. by exists ev1.
    + intros [(? & [= <- <- <-] & ->)|(? & ? & ? & ? & [=] & _)]. done.
  - cbn. split; [intros [=]|].
    intros [(? & [=] & _)|(? & ? & ? & ? & [=] & _)].
Qed.

Lemma slept_frame_cap_length fps : length (slept (frame_cap fps)) <= 1.
Proof. unfold frame_cap. destruct (0 <? fps)%Z; cbn; lia. Qed.

(** X3.  One [step_wait] of the wrapper sleeps at most once, and, the frame
    rate being an integer, never for a negative time and never for more
    than one second.  (The duration is [1 / render_fps] as a rational here;
    the float that Python computes is 0.0 for a frame rate beyond the range
    of floats, which is why the lower bound is not strict.) *)
Theorem InteractiveRender_sleeps_briefly venv fps w ev r w' :
  m_step_wait (InteractiveRender venv fps) w = (ev, r, w') ->
  length (slept ev) <= 1 /\
  Forall (fun q => (0 <= q)%Q /\ (q <= 1)%Q) (slept ev).
Proof.
  intros Hrun.
  destruct (InteractiveRender_step_wait_calls _ _ _ _ _ _ Hrun)
    as (ev1 & r1 & w1 & _ & Hs1 & Hrest).
  assert (slept ev = slept (frame_cap fps) \/ slept ev = []) as [-> | ->].
  { destruct r1 as [res|e|].
    - destruct Hrest as (ev2 & r2 & _ & Hs2 & -> & _). left.
      by rewrite !slept_app, Hs1, Hs2, app_nil_r.
    - destruct Hrest as (-> & _). by right.
    - destruct Hrest as (-> & _). by right. }
  - split; [apply slept_frame_cap_length|].
    apply Forall_forall. intros q [Hfps ->]%slept_frame_cap.
    unfold Qlt, Qle. cbn. lia.
  - split; [cbn; lia|constructor].
Qed.

Lemma result_of_bind {S A B} (m1 m2 : St S A) (k1 k2 : A -> St S B) s :
  result_of m1 s = result_of m2 s ->
  (forall a s1, result_of (k1 a) s1 = result_of (k2 a) s1) ->
  result_of (bind m1 k1) s = result_of (bind m2 k2) s.
Proof.
  unfold result_of, bind. intros H1 H2.
  destruct (m1 s) as [[ev1 r1] s1], (m2 s) as [[ev2 r2] s2].
  injection H1 as -> ->. destruct r2 as [a| |]; try done.
  specialize (H2 a s2).
  by destruct (k1 a s2) as [[? ?] ?], (k2 a s2) as [[? ?] ?].
Qed.

Lemma result_of_sub {S A} c (m : St S A) s :
  result_of (sub c m) s = result_of m s.
Proof. unfold result_of, sub. by destruct (m s) as [[? ?] ?]. Qed.

Lemma InteractiveRender_reset_result venv fps w :
  render_neutral venv ->
  result_of (reset (InteractiveRender venv fps)) w = result_of (reset venv) w.
Proof.
  intros Hn.
  unfold reset at 1. cbn [m_reset InteractiveRender]. rewrite result_of_sub.
  unfold result_of at 1. rewrite bind_run.
  destruct (reset venv w) as [[ev1 [ob| e |]] w1] eqn:H1;
    unfold result_of; rewrite H1; try done.
  destruct (Hn w1) as [ev2 H2]. by rewrite (bind_Val _ _ _ _ _ _ H2).
Qed.

Lemma InteractiveRender_step_result venv fps w acts :
  render_neutral venv ->
  result_of (step (InteractiveRender venv fps) acts) w
    = result_of (step venv acts) w.
Proof.
  intros Hn. unfold step. apply result_of_bind.
  - unfold step_async at 1. cbn [m_step_async InteractiveRender].
    apply result_of_sub.
  - intros _ w0. unfold step_wait at 1. cbn [m_step_wait InteractiveRender].
    rewrite result_of_sub. unfold result_of at 1. rewrite bind_run.
    destruct (step_wait venv w0) as [[ev1 [res| e |]] w1] eqn:H1;
      unfold result_of; rewrite H1; try done.
    rewrite (bind_Val _ _ _ _ _ _ (frame_cap_run fps w1)).
    destruct (Hn w1) as [ev2 H2]. by rewrite (bind_Val _ _ _ _ _ _ H2).
Qed.

(** X12.  When rendering only draws (it returns and changes nothing), the
    wrapper is transparent to whoever uses the environment: a reset and a
    step through [InteractiveRender] return what the wrapped environment's
    reset and step return, or raise what they raise, and leave the same
    world.  Only the calls made differ. *)
Theorem InteractiveRender_transparent venv fps w acts :
  render_neutral venv ->
  result_of (reset (InteractiveRender venv fps)) w = result_of (reset venv) w /\
  result_of (step (InteractiveRender venv fps) acts) w
    = result_of (step venv acts) w.
Proof.
  intros Hn. split.
  - by apply InteractiveRender_reset_result.
  - by apply InteractiveRender_step_result.
Qed.

Lemma rollout_loop_render_transparent fuel (policy : Policy Obs Act X) venv
    fps su st w :
  render_neutral venv ->
  result_of (rollout_loop fuel policy (InteractiveRender venv fps) su st) w
    = result_of (rollout_loop fuel policy venv su st) w.
Proof.
  intros Hn. revert st w. induction fuel as [|fuel IH]; intros st w.
  - done.
  - cbn [rollout_loop]. destruct (_ && _); [done|].
    apply result_of_bind; [done|]. intros acts w1.
    apply result_of_bind;
      [by apply InteractiveRender_step_result|].
    intros res w2. destruct (advance su st acts res); [apply IH|done].
Qed.

(** X13.  Rendering a rollout does not change it: when rendering only
    draws, the rollout engine run on [InteractiveRender venv fps] ends as it
    does on [venv] itself, with the same trajectories or the same exception,
    in the same world. *)
Theorem generate_trajectories_render_transparent fuel
    (policy : Policy Obs Act X) venv fps su w :
  render_neutral venv ->
  result_of
    (generate_trajectories fuel policy (InteractiveRender venv fps) su) w
  = result_of (generate_trajectories fuel policy venv su) w.
Proof.
  intros Hn. unfold generate_trajectories. apply result_of_bind.
  - by apply InteractiveRender_reset_result.
  - intros obs w1. by apply rollout_loop_render_transparent.
Qed.

End InteractiveRender_errors.


(** ** More on [eval_policy] *)

Section eval_policy_more_facts.

Context {Obs Act Info X : Type}.
Implicit Types (I : Imports Obs Act Info X) (w : World Obs Act X)
  (venv : VecEnv Obs Act Info X) (c : Config).

Ltac break_stuck :=
  match goal with
  | |- context [match ?t with _ => _ end] =>
      lazymatch t with
      | context [match _ with _ => _ end] => fail
      | _ => destruct t eqn:?
      end
  end.

Ltac unfold_py :=
  unfold with_ExitStack, enter_context, push_exit, lift, with_, ExitStack_exit,
    call, sub, lift_ext, try_, bind, ret, raise, pure_res, in_frame,
    assign_trajs, read_trajs in *.

Ltac sym_exec := repeat (unfold_py; cbn; try break_stuck).

Ltac name_messages :=
  repeat match goal with
         | |- context [CLogInfo ?m] =>
             tryif is_var m then fail else (generalize m; intros ?msg)
         end.

(** X4.  [eval_policy] stops at the first failure: once a call other than
    an [__exit__] has raised, it calls nothing but the [__exit__]s of the
    resources it holds, and it does not return a value, not even when an
    [__exit__] suppresses the exception. *)
Theorem eval_policy_fail_fast I c w ev r w' :
  eval_policy I c w = (ev, r, w') ->
  fail_fast ev = true /\
  (failed_call ev = true -> forall s, r <> Val s).
Proof.
  unfold eval_policy, rollout_block.
  destruct (reward_type c) as [rt|]; name_messages.
  all: sym_exec; intros [= <- <- <-]; try done.
  all: by destruct (rollout_rollout_stats I _).
Qed.

(** X5.  With resources whose [__exit__] neither raises nor suppresses, an
    exception raised by any callee is the exception [eval_policy] raises:
    the failure of the rollout engine, of a loader or of the environment
    factory reaches the caller unchanged. *)
Theorem eval_policy_error_surfaces I c w ev r w' :
  policy_resources I quiet -> reward_resources I quiet ->
  eval_policy I c w = (ev, r, w') ->
  Forall (fun ev0 => forall e, outcome ev0 = Raised e -> r = Exc e) ev.
Proof.
  intros HP HR. unfold eval_policy, rollout_block.
  destruct (reward_type c) as [rt|]; name_messages.
  all: sym_exec; intros [= <- <- <-].
  all: repeat match goal with
         | Hl : serialize_load_policy _ _ _ _ _ = (Val ?cm, _),
           He : cm_exit ?cm ?exc ?x = _ |- _ =>
             destruct (HP _ _ _ _ _ _ Hl exc x) as [? Hq];
             rewrite Hq in He; clear Hq; simplify_eq
         | Hl : load_reward _ _ _ _ _ = (Val ?cm, _),
           He : cm_exit ?cm ?exc ?x = _ |- _ =>
             destruct (HR _ _ _ _ _ _ Hl exc x) as [? Hq];
             rewrite Hq in He; clear Hq; simplify_eq
         end.
  all: try (destruct (rollout_rollout_stats I _) eqn:?).
  all: repeat constructor; intros ? [=]; by subst.
Qed.

(** X6.  When the rollout engine raises and the policy's [__exit__]
    swallows the exception, [eval_policy] goes on to line 112 with [trajs]
    never assigned: it raises [UnboundLocalError] and calls
    [rollout_stats] on nothing. *)
Theorem eval_policy_swallowed_error I c w ev r w' e post :
  policy_resources I swallows -> reward_resources I exit_returns ->
  eval_policy I c w = (ev, r, w') ->
  rollout_raised ev = Some (e, post) ->
  r = Exc UnboundLocalError /\
  Forall (fun ev0 => callee ev0 <> CRolloutStats) ev.
Proof.
  intros HP HR. unfold eval_policy, rollout_block.
  destruct (reward_type c) as [rt|]; name_messages.
  all: sym_exec; intros [= <- <- <-] [= <- <-].
  all: repeat match goal with
         | Hl : serialize_load_policy _ _ _ _ _ = (Val ?cm, _),
           He : cm_exit ?cm (Some ?e0) ?x = _ |- _ =>
             destruct (HP _ _ _ _ _ _ Hl e0 x) as [? Hq];
             rewrite Hq in He; clear Hq; simplify_eq
         | Hl : load_reward _ _ _ _ _ = (Val ?cm, _),
           He : cm_exit ?cm ?exc ?x = _ |- _ =>
             destruct (HR _ _ _ _ _ _ Hl exc x) as (? & ? & Hq);
             rewrite Hq in He; clear Hq; simplify_eq
         end.
  all: split; [done|]; by repeat constructor.
Qed.

(** X7.  The scoped resources are used as a stack.  In a run that ends,
    the reward function, if any, is acquired before the policy, the policy
    is released before the reward function, and nothing is acquired or
    released twice. *)
Theorem eval_policy_release_order I c w ev r w' :
  eval_policy I c w = (ev, r, w') -> r <> Div ->
  resource_ops ev = [] \/
  resource_ops ev = [Acquire RPolicy; Release RPolicy] \/
  resource_ops ev = [Acquire RReward; Release RReward] \/
  resource_ops ev =
    [Acquire RReward; Acquire RPolicy; Release RPolicy; Release RReward].
Proof.
  unfold eval_policy, rollout_block.
  destruct (reward_type c) as [rt|]; name_messages.
  all: sym_exec; intros [= <- <- <-] Hr; try done.
  all: auto.
Qed.

(** X8.  A run that returns made the calls of the function body, each
    once, in the order of the statements: the log directory, the symlink,
    the logging set-up, the stopping condition, the environment factory,
    the reward override when one is configured, the policy loader, the
    rollout, the releases, and the statistics last, after the resources are
    released.  Every call returned, except that the policy's [__exit__] may
    have raised an exception that the reward function's [__exit__], called
    with it, suppressed. *)
Theorem eval_policy_calls_in_order I c w ev s w' :
  eval_policy I c w = (ev, Val s, w') ->
  exists exc,
    map callee ev = calls_of_a_full_run c exc /\
    ((exc = None /\ Forall (fun ev0 => outcome ev0 = Returned) ev) \/
     (exists e, exc = Some e /\
                EvCall (CExit RPolicy None) [] (Raised e) ∈ ev)).
Proof.
  unfold eval_policy, rollout_block, calls_of_a_full_run.
  destruct (reward_type c) as [rt|].
  all: repeat match goal with
              | |- context [CLogInfo ?m] =>
                  tryif is_var m then fail
                  else (let msg := fresh "msg" in remember m as msg)
              end.
  all: sym_exec; intros [= <- Hs <-].
  all: eexists; (split; [reflexivity|]).
  all: first [ left; split; [reflexivity|]; rewrite Hs;
               by repeat constructor
             | right; eexists; split; [reflexivity|];
               repeat first [apply list_elem_of_here
                            |apply list_elem_of_further] ].
Qed.

(** X9.  Without a reward type there is no reward override: neither the
    reward loader nor the reward wrapper is called, no reward function is
    acquired or released, and [reward_path] is ignored. *)
Theorem eval_policy_without_reward_type I c w ev r w' :
  reward_type c = None ->
  eval_policy I c w = (ev, r, w') ->
  Forall (fun ev0 => reward_call (callee ev0) = false) ev /\
  forall p, eval_policy I (with_reward_path p c) w = (ev, r, w').
Proof.
  intros Hrt Hrun. split.
  - revert Hrun. unfold eval_policy, rollout_block. rewrite Hrt.
    name_messages. sym_exec; intros [= <- <- <-]; by repeat constructor.
  - intros p. rewrite <- Hrun.
    unfold eval_policy, rollout_block, wrap_render, with_reward_path.
    cbn. by rewrite Hrt.
Qed.

(** X10.  How a run that returns is wired: the stopping condition is built
    from [(eval_n_timesteps, eval_n_episodes)]; the factory is called with
    [env_name], [num_vec], [_seed], [parallel], [log_dir] and
    [max_episode_steps]; the policy is loaded from
    [(policy_type, policy_path)] for the environment it is then rolled out
    in, which without a reward type is the factory's environment, render
    wrapper included; and the rollout gets the policy that the loader's
    context manager yields, this environment and this stopping condition. *)
Theorem eval_policy_wiring I c w ev s w' :
  eval_policy I c w = (ev, Val s, w') ->
  exists sample_until base x x_b venv policy_ctx x_p x_p' policy x_p''
         w1 inner trajs w2,
    rollout_make_sample_until I (eval_n_timesteps c) (eval_n_episodes c)
      = Val sample_until /\
    util_make_vec_env I (env_name c) (num_vec c) (_seed c) (parallel c)
      (log_dir c) (max_episode_steps c) x = (Val base, x_b) /\
    (reward_type c = None -> venv = wrap_render c (of_base base)) /\
    serialize_load_policy I (policy_type c) (policy_path c) venv x_p
      = (Val policy_ctx, x_p') /\
    cm_enter policy_ctx x_p' = (Val policy, x_p'') /\
    rollout_generate_trajectories I policy venv sample_until w1
      = (inner, Val trajs, w2) /\
    rollout_calls ev = [(inner, Returned)].
Proof.
  intros Hrun.
  destruct (eval_policy_success _ _ _ _ _ _ Hrun)
    as (su & base & x & xb & venv & pctx & xp & xp' & policy & xp'' & w1
        & inner & trajs & w2
        & Hsu & Hbase & Hwrap & Hpol & Hpol' & Hgen & Hcalls & _).
  exists su, base, x, xb, venv, pctx, xp, xp', policy, xp'', w1, inner, trajs,
    w2.
  repeat (split; [done|]). split; [|done].
  intros Hrt. unfold reward_wrapped in Hwrap. by rewrite Hrt in Hwrap.
Qed.

(** X11.  Whatever happens, the calls [eval_policy] makes are, in this
    order, calls of a full run: it calls nothing out of order and, the two
    log messages apart, nothing twice. *)
Theorem eval_policy_calls_sublist I c w ev r w' :
  eval_policy I c w = (ev, r, w') ->
  map (fun ev0 => call_kind (callee ev0)) ev `sublist_of`
    calls_of_a_full_run c None.
Proof.
  unfold eval_policy, rollout_block, calls_of_a_full_run.
  destruct (reward_type c) as [rt|].
  all: repeat match goal with
              | |- context [CLogInfo ?m] =>
                  tryif is_var m then fail
                  else (let msg := fresh "msg" in remember m as msg)
              end.
  all: sym_exec; intros [= <- <- <-].
  all: repeat first [apply sublist_nil | apply sublist_skip
                    | apply sublist_cons].
Qed.

End eval_policy_more_facts.


(** ** Runs in the toy world *)

(** X3 at 30 frames per second: one sleep of a thirtieth of a second. *)
Lemma InteractiveRender_sleeps_briefly_witness :
  exists ev r w',
    m_step_wait (InteractiveRender (of_base Toy.base) 30) (Toy.w0 None)
      = (ev, r, w') /\
    slept ev = [1 # 30] /\
    Forall (fun q => (0 <= q)%Q /\ (q <= 1)%Q) (slept ev).
Proof.
  eexists _, _, _. split; [vm_compute; reflexivity|]. split; [reflexivity|].
  assert (m_step_wait (InteractiveRender (of_base Toy.base) 30) (Toy.w0 None)
          = _) as Hrun by (vm_compute; reflexivity).
  exact (proj2 (InteractiveRender_sleeps_briefly _ _ _ _ _ _ Hrun)).
Defined.

(** X4 in the toy world: the simulator crashes at its fourth step, and
    the two [__exit__]s are all that follows. *)
Lemma eval_policy_fail_fast_witness :
  exists ev w',
    eval_policy (Toy.imports 20)
      (Toy.config (Some 7%Z) None false 0 (Some "airl")) (Toy.w0 (Some 3%nat))
    = (ev, Exc OSError, w') /\
    failed_call ev = true /\ fail_fast ev = true /\
    forall s : Stats, Exc OSError <> Val s.
Proof.
  eexists _, _. split; [vm_compute; reflexivity|]. split; [reflexivity|].
  assert (eval_policy (Toy.imports 20)
            (Toy.config (Some 7%Z) None false 0 (Some "airl"))
            (Toy.w0 (Some 3%nat)) = _) as Hrun by (vm_compute; reflexivity).
  destruct (eval_policy_fail_fast _ _ _ _ _ _ Hrun) as [H1 H2].
  split; [exact H1|]. apply H2. reflexivity.
Defined.

Lemma toy_resources_quiet fuel :
  policy_resources (Toy.imports fuel) quiet /\
  reward_resources (Toy.imports fuel) quiet.
Proof.
  split; intros ? ? ? ? ? ? [= <- <-] exc x; eexists; reflexivity.
Qed.

(** X5 in the toy world: the crash of the simulator is what the caller
    gets. *)
Lemma eval_policy_error_surfaces_witness :
  exists ev w',
    eval_policy (Toy.imports 20)
      (Toy.config (Some 7%Z) None false 0 (Some "airl")) (Toy.w0 (Some 3%nat))
    = (ev, Exc OSError, w') /\
    policy_resources (Toy.imports 20) quiet /\
    reward_resources (Toy.imports 20) quiet /\
    Forall (fun ev0 => forall e, outcome ev0 = Raised e ->
                                 Exc (A := Stats) OSError = Exc e) ev.
Proof.
  eexists _, _. split; [vm_compute; reflexivity|].
  split; [apply toy_resources_quiet|]. split; [apply toy_resources_quiet|].
  assert (eval_policy (Toy.imports 20)
            (Toy.config (Some 7%Z) None false 0 (Some "airl"))
            (Toy.w0 (Some 3%nat)) = _) as Hrun by (vm_compute; reflexivity).
  exact (eval_policy_error_surfaces _ _ _ _ _ _
           (proj1 (toy_resources_quiet 20)) (proj2 (toy_resources_quiet 20))
           Hrun).
Defined.

Lemma toy_policy_swallows fuel :
  policy_resources (ToyMore.imports fuel) swallows /\
  reward_resources (ToyMore.imports fuel) exit_returns.
Proof.
  split; intros ? ? ? ? ? ? [= <- <-] exc x; repeat eexists.
Qed.

(** X6 in the toy world: the simulator crashes, the policy's [__exit__]
    swallows the crash, and the caller gets [UnboundLocalError]. *)
Lemma eval_policy_swallowed_error_witness :
  exists ev r w' post,
    eval_policy (ToyMore.imports 20)
      (Toy.config (Some 7%Z) None false 0 (Some "airl")) (Toy.w0 (Some 3%nat))
    = (ev, r, w') /\
    policy_resources (ToyMore.imports 20) swallows /\
    reward_resources (ToyMore.imports 20) exit_returns /\
    rollout_raised ev = Some (OSError, post) /\
    Toy.released (ext w') = [(RPolicy, Some OSError); (RReward, None)] /\
    r = Exc UnboundLocalError.
Proof.
  eexists _, _, _, _. split; [vm_compute; reflexivity|].
  split; [apply toy_policy_swallows|]. split; [apply toy_policy_swallows|].
  split; [reflexivity|]. split; [reflexivity|].
  assert (eval_policy (ToyMore.imports 20)
            (Toy.config (Some 7%Z) None false 0 (Some "airl"))
            (Toy.w0 (Some 3%nat)) = _) as Hrun by (vm_compute; reflexivity).
  exact (proj1 (eval_policy_swallowed_error _ _ _ _ _ _ OSError _
                  (proj1 (toy_policy_swallows 20))
                  (proj2 (toy_policy_swallows 20)) Hrun eq_refl)).
Defined.

(** X7 in the toy world, with a reward type: both resources, as a stack. *)
Lemma eval_policy_release_order_witness :
  exists ev s w',
    eval_policy (Toy.imports 20)
      (Toy.config None (Some 3%Z) false 0 (Some "airl")) (Toy.w0 None)
    = (ev, Val s, w') /\
    Val s <> Div /\
    resource_ops ev =
      [Acquire RReward; Acquire RPolicy; Release RPolicy; Release RReward].
Proof.
  eexists _, _, _. split; [vm_compute; reflexivity|]. split; [discriminate|].
  assert (eval_policy (Toy.imports 20)
            (Toy.config None (Some 3%Z) false 0 (Some "airl")) (Toy.w0 None)
          = _) as Hrun by (vm_compute; reflexivity).
  destruct (eval_policy_release_order _ _ _ _ _ _ Hrun ltac:(discriminate))
    as [H|[H|[H|H]]]; [discriminate H..|exact H].
Defined.

(** X8 in the toy world, with a reward type: sixteen calls. *)
Lemma eval_policy_calls_in_order_witness :
  exists ev s w',
    eval_policy (Toy.imports 20)
      (Toy.config None (Some 3%Z) false 0 (Some "airl")) (Toy.w0 None)
    = (ev, Val s, w') /\
    length ev = 16%nat /\
    exists exc,
      map callee ev =
        calls_of_a_full_run
          (Toy.config None (Some 3%Z) false 0 (Some "airl")) exc.
Proof.
  eexists _, _, _. split; [vm_compute; reflexivity|]. split; [reflexivity|].
  assert (eval_policy (Toy.imports 20)
            (Toy.config None (Some 3%Z) false 0 (Some "airl")) (Toy.w0 None)
          = _) as Hrun by (vm_compute; reflexivity).
  destruct (eval_policy_calls_in_order _ _ _ _ _ _ Hrun) as (exc & H & _).
  exists exc. exact H.
Defined.

(** X9 in the toy world: no reward type, and a reward path that is not
    looked at. *)
Lemma eval_policy_without_reward_type_witness :
  exists ev s w',
    eval_policy (Toy.imports 20)
      (Toy.config None (Some 3%Z) false 0 None) (Toy.w0 None)
    = (ev, Val s, w') /\
    reward_type (Toy.config None (Some 3%Z) false 0 None) = None /\
    eval_policy (Toy.imports 20)
      (with_reward_path None (Toy.config None (Some 3%Z) false 0 None))
      (Toy.w0 None)
    = (ev, Val s, w').
Proof.
  eexists _, _, _. split; [vm_compute; reflexivity|]. split; [reflexivity|].
  assert (eval_policy (Toy.imports 20)
            (Toy.config None (Some 3%Z) false 0 None) (Toy.w0 None) = _)
    as Hrun by (vm_compute; reflexivity).
  exact (proj2 (eval_policy_without_reward_type (Toy.imports 20)
                  (Toy.config None (Some 3%Z) false 0 None) _ _ _ _
                  eq_refl Hrun) None).
Defined.

(** X10 in the toy world: the environment the policy is rolled out in is
    the factory's. *)
Lemma eval_policy_wiring_witness :
  exists ev s w',
    eval_policy (Toy.imports 20)
      (Toy.config None (Some 3%Z) false 0 None) (Toy.w0 None)
    = (ev, Val s, w') /\
    exists policy sample_until w1 inner trajs w2,
      generate_trajectories 20 policy (of_base Toy.base) sample_until w1
        = (inner, Val trajs, w2) /\
      rollout_calls ev = [(inner, Returned)].
Proof.
  eexists _, _, _. split; [vm_compute; reflexivity|].
  assert (eval_policy (Toy.imports 20)
            (Toy.config None (Some 3%Z) false 0 None) (Toy.w0 None) = _)
    as Hrun by (vm_compute; reflexivity).
  destruct (eval_policy_wiring _ _ _ _ _ _ Hrun)
    as (su & base & x & xb & venv & _ & _ & _ & policy & _ & w1 & inner
        & trajs & w2 & _ & Hbase & Hvenv & _ & _ & Hgen & Hcalls).
  injection Hbase as <- _. rewrite (Hvenv eq_refl) in Hgen.
  exists policy, su, w1, inner, trajs, w2. split; [exact Hgen|exact Hcalls].
Defined.

(** X11 in the toy world: the run that crashes. *)
Lemma eval_policy_calls_sublist_witness :
  exists ev w',
    eval_policy (Toy.imports 20)
      (Toy.config (Some 7%Z) None false 0 (Some "airl")) (Toy.w0 (Some 3%nat))
    = (ev, Exc OSError, w') /\
    map (fun ev0 => call_kind (callee ev0)) ev `sublist_of`
      calls_of_a_full_run
        (Toy.config (Some 7%Z) None false 0 (Some "airl")) None.
Proof.
  eexists _, _. split; [vm_compute; reflexivity|].
  assert (eval_policy (Toy.imports 20)
            (Toy.config (Some 7%Z) None false 0 (Some "airl"))
            (Toy.w0 (Some 3%nat)) = _) as Hrun by (vm_compute; reflexivity).
  exact (eval_policy_calls_sublist _ _ _ _ _ _ Hrun).
Defined.

Lemma still_base_render_neutral : render_neutral (of_base ToyMore.still_base).
Proof. intros [x h]. eexists. reflexivity. Qed.

(** X12 in the toy world: a reset and a step through the wrapper. *)
Lemma InteractiveRender_transparent_witness :
  render_neutral (of_base ToyMore.still_base) /\
  result_of (reset (InteractiveRender (of_base ToyMore.still_base) 30))
    (Toy.w0 None)
  = (Val [0; 0]%nat, mkWorld (Toy.mkX [0; 0]%nat 0 None [] 0) []) /\
  result_of (step (InteractiveRender (of_base ToyMore.still_base) 30)
               [10; 10]%nat) (Toy.w0 None)
  = result_of (step (of_base ToyMore.still_base) [10; 10]%nat) (Toy.w0 None).
Proof.
  split; [exact still_base_render_neutral|].
  destruct (InteractiveRender_transparent (of_base ToyMore.still_base) 30
              (Toy.w0 None) [10; 10]%nat still_base_render_neutral)
    as [H1 H2].
  split; [rewrite H1; reflexivity|exact H2].
Defined.

(** X13 in the toy world: three episodes asked for, rendered or not. *)
Lemma generate_trajectories_render_transparent_witness :
  render_neutral (of_base ToyMore.still_base) /\
  exists ts w',
    result_of (generate_trajectories 20 Toy.policy
                 (InteractiveRender (of_base ToyMore.still_base) 30)
                 (fun _ episodes => (3 <=? episodes)%nat)) (Toy.w0 None)
    = (Val ts, w') /\
    result_of (generate_trajectories 20 Toy.policy
                 (of_base ToyMore.still_base)
                 (fun _ episodes => (3 <=? episodes)%nat)) (Toy.w0 None)
    = (Val ts, w') /\
    length ts = 4%nat.
Proof.
  split; [exact still_base_render_neutral|].
  eexists _, _. split; [|split; [vm_compute; reflexivity|reflexivity]].
  rewrite (generate_trajectories_render_transparent 20 Toy.policy
             (of_base ToyMore.still_base) 30
             (fun _ episodes => (3 <=? episodes)%nat) (Toy.w0 None)
             still_base_render_neutral).
  vm_compute; reflexivity.
Defined.
